(** * paramak: geometry utilities and the centre-column cylinder profile

    A shallow embedding of [paramak/utils.py] and of
    [paramak/parametric_components/center_column_cylinder.py].

    Numbers.  The Python code computes with floats.  Finite values are
    modelled as real numbers ([R]): rounding, overflow and signed zeros are
    abstracted away.  Where the source produces or tests the special values
    [inf], [-inf] and [nan] (the offset curve, [extend], the degenerate
    circle) the type [float] below adds them to the reals, with the
    arithmetic NumPy gives them.

    Exceptions are modelled by the [result] type, attribute updates and
    kernel calls by a state-and-exception monad. *)

From Stdlib Require Import Reals Lra Lia List Bool ZArith.
From Stdlib Require String.
Import ListNotations.

Open Scope R_scope.

(** ** Exceptions and the state-and-exception monad *)

(** The exceptions the modelled code can raise. *)
Inductive exn : Type :=
| ValueError_inner_larger (inner outer : R)
    (* "inner_radius ({}) is larger than outer_radius ({})" *)
| ValueError_height_unset
    (* "height of the CenterColumnShieldBlock must be set" *)
| ValueError_broadcast        (* NumPy: operands could not be broadcast *)
| IndexError                  (* list index out of range *)
| UnboundLocalError           (* local variable referenced before assignment *)
| KernelError.                (* an exception raised inside the CAD kernel *)

Inductive result (A : Type) : Type :=
| Ok (a : A)
| Raise (e : exn).
Arguments Ok {A} a.
Arguments Raise {A} e.

(** A computation over a state [S]: it returns a value or raises, and in
    both cases leaves a state behind. *)
Definition M (S A : Type) : Type := S -> result A * S.

Definition ret {S A} (a : A) : M S A := fun s => (Ok a, s).

Definition raise {S A} (e : exn) : M S A := fun s => (Raise e, s).

Definition bind {S A B} (m : M S A) (k : A -> M S B) : M S B :=
  fun s =>
    match m s with
    | (Ok a, s') => k a s'
    | (Raise e, s') => (Raise e, s')
    end.

Definition get {S} : M S S := fun s => (Ok s, s).

Definition modify {S} (f : S -> S) : M S unit := fun s => (Ok tt, f s).

Declare Scope py_scope.
Delimit Scope py_scope with py.
Notation "x <- m ;; k" := (bind m (fun x => k))
  (at level 100, m at next level, right associativity) : py_scope.
Notation "m ;; k" := (bind m (fun _ => k))
  (at level 100, right associativity) : py_scope.
Open Scope py_scope.

(** Decidable comparisons of reals as booleans, written as in Python. *)
Definition Rltb (a b : R) : bool := if Rlt_dec a b then true else false.
Definition Rleb (a b : R) : bool := if Rle_dec a b then true else false.
Definition Rgtb (a b : R) : bool := Rltb b a.
Definition Rgeb (a b : R) : bool := Rleb b a.
Definition Reqb (a b : R) : bool := if Req_dec_T a b then true else false.

(** A 2D point. *)
Definition point : Type := (R * R)%type.

(** ** center_column_cylinder.py *)

Module CenterColumnShieldCylinder.

(** The attributes of the object that [find_points] reads and writes.
    [height] may be [None]; [points] is unset ([None]) until a profile
    has been derived. *)
Record t : Type := mk {
  height : option R;
  inner_radius : R;
  outer_radius : R;
  points : option (list point)
}.

(** [self.points = points] *)
Definition set_points (pts : list point) : M t unit :=
  modify (fun self =>
    mk (height self) (inner_radius self) (outer_radius self) (Some pts)).

(** [CenterColumnShieldCylinder.find_points] *)
Definition find_points : M t unit :=
  self <- get ;;
  if Rgeb (inner_radius self) (outer_radius self) then
    raise (ValueError_inner_larger (inner_radius self) (outer_radius self))
  else
    match height self with
    | None => raise ValueError_height_unset
    | Some h =>
        let points :=
          [ (inner_radius self, h / 2);
            (outer_radius self, h / 2);
            (outer_radius self, - h / 2);
            (inner_radius self, - h / 2) ] in
        set_points points
    end.

(** [__init__] as it is meant, not as it is written: in the source its
    parameter list does not parse (l.26-27, the comma after the default
    of [name] sits inside the string; see
    [CenterColumnShieldCylinderSource] below), so that as written no
    object of the class exists.  With that comma in place the three
    geometric attributes are stored; that no points are set yet rests on
    the constructor of the base class, which is not among the sources. *)
Definition init (h : option R) (inner outer : R) : t :=
  mk h inner outer None.

(** The property setters [height], [inner_radius] and [outer_radius]:
    the value is stored as it is given, nothing is checked and the
    points are not touched. *)
Definition set_height (h : option R) : M t unit :=
  modify (fun self =>
    mk h (inner_radius self) (outer_radius self) (points self)).

Definition set_inner_radius (r : R) : M t unit :=
  modify (fun self =>
    mk (height self) r (outer_radius self) (points self)).

Definition set_outer_radius (r : R) : M t unit :=
  modify (fun self =>
    mk (height self) (inner_radius self) r (points self)).

End CenterColumnShieldCylinder.

(** The [def __init__(...)] header of the class as it is written, l.19-29,
    token by token, and the part of Python's grammar it falls under. *)
Module CenterColumnShieldCylinderSource.
Import Stdlib.Strings.String.
Local Open Scope string_scope.

Inductive token : Type :=
| NAME (id : string)
| STRING (s : string)
| COMMA
| EQUAL
| DOUBLESTAR.

Inductive parameter : Type :=
| Plain (name : string)
| Default (name value : string)
| Keywords (name : string).

(** What may follow a parameter: the end of the list, or a comma and
    the rest of the list. *)
Definition after_parameter (p : parameter) (rest : list token)
    (parse : list token -> option (list parameter))
  : option (list parameter) :=
  match rest with
  | [] => Some [p]
  | COMMA :: rest' => option_map (cons p) (parse rest')
  | _ => None
  end.

(** A parameter list: parameters [name], [name=default] or [**name],
    separated by commas.  [None] is Python's [SyntaxError]. *)
Fixpoint parse_parameters (ts : list token) : option (list parameter) :=
  match ts with
  | [] => Some []
  | NAME n :: EQUAL :: STRING v :: rest =>
      after_parameter (Default n v) rest parse_parameters
  | NAME n :: rest => after_parameter (Plain n) rest parse_parameters
  | DOUBLESTAR :: NAME n :: rest =>
      after_parameter (Keywords n) rest parse_parameters
  | _ => None
  end.

(** The parameter list of [__init__], l.20-28, as written. *)
Definition init_parameters : list token :=
  [ NAME "self"; COMMA;
    NAME "height"; COMMA;
    NAME "inner_radius"; COMMA;
    NAME "outer_radius"; COMMA;
    NAME "stp_filename"; EQUAL; STRING "CenterColumnShieldCylinder.stp"; COMMA;
    NAME "stl_filename"; EQUAL; STRING "CenterColumnShieldCylinder.stl"; COMMA;
    NAME "name"; EQUAL; STRING "center_column,";
    NAME "material_tag"; EQUAL; STRING "center_column_shield_mat"; COMMA;
    DOUBLESTAR; NAME "kwargs" ].

(** The same list with the comma after the default of [name], outside
    the string: what the docstring (l.8-17) describes. *)
Definition init_parameters_meant : list token :=
  [ NAME "self"; COMMA;
    NAME "height"; COMMA;
    NAME "inner_radius"; COMMA;
    NAME "outer_radius"; COMMA;
    NAME "stp_filename"; EQUAL; STRING "CenterColumnShieldCylinder.stp"; COMMA;
    NAME "stl_filename"; EQUAL; STRING "CenterColumnShieldCylinder.stl"; COMMA;
    NAME "name"; EQUAL; STRING "center_column"; COMMA;
    NAME "material_tag"; EQUAL; STRING "center_column_shield_mat"; COMMA;
    DOUBLESTAR; NAME "kwargs" ].

Definition parameters_meant : list parameter :=
  [ Plain "self"; Plain "height"; Plain "inner_radius"; Plain "outer_radius";
    Default "stp_filename" "CenterColumnShieldCylinder.stp";
    Default "stl_filename" "CenterColumnShieldCylinder.stl";
    Default "name" "center_column";
    Default "material_tag" "center_column_shield_mat";
    Keywords "kwargs" ].

(** Loading the module and then running some code of it. *)
Inductive loaded (A : Type) : Type :=
| Ran (a : A)
| SyntaxError.
Arguments Ran {A} a.
Arguments SyntaxError {A}.

(** [CenterColumnShieldCylinder(height, inner_radius, outer_radius)
    .find_points()] on the module whose [__init__] has the parameter list
    [header]: the module has to compile before anything of it runs. *)
Definition construct_and_find_points (header : list token)
    (h : option R) (inner outer : R)
  : loaded (result unit * CenterColumnShieldCylinder.t) :=
  match parse_parameters header with
  | Some _ =>
      Ran (CenterColumnShieldCylinder.find_points
             (CenterColumnShieldCylinder.init h inner outer))
  | None => SyntaxError
  end.

End CenterColumnShieldCylinderSource.

(** ** Floats with the IEEE special values *)

Inductive float : Type :=
| Fin (r : R)
| PInf
| NInf
| NaN.

(** The infinity carrying the sign of [r]; [nan] when [r] is zero. *)
Definition signed_inf (r : R) : float :=
  if Req_dec_T r 0 then NaN else if Rlt_dec 0 r then PInf else NInf.

Definition fneg (a : float) : float :=
  match a with
  | Fin r => Fin (- r)
  | PInf => NInf
  | NInf => PInf
  | NaN => NaN
  end.

Definition fadd (a b : float) : float :=
  match a, b with
  | NaN, _ | _, NaN => NaN
  | Fin r, Fin s => Fin (r + s)
  | PInf, NInf | NInf, PInf => NaN
  | PInf, _ | _, PInf => PInf
  | NInf, _ | _, NInf => NInf
  end.

Definition fsub (a b : float) : float := fadd a (fneg b).

Definition fmul (a b : float) : float :=
  match a, b with
  | NaN, _ | _, NaN => NaN
  | Fin r, Fin s => Fin (r * s)
  | Fin r, PInf | PInf, Fin r => signed_inf r
  | Fin r, NInf | NInf, Fin r => signed_inf (- r)
  | PInf, PInf | NInf, NInf => PInf
  | PInf, NInf | NInf, PInf => NaN
  end.

(** NumPy's [true_divide]: a division by zero does not raise, it gives
    an infinity, or [nan] for [0 / 0]. *)
Definition fdiv (a b : float) : float :=
  match a, b with
  | NaN, _ | _, NaN => NaN
  | Fin r, Fin s => if Req_dec_T s 0 then signed_inf r else Fin (r / s)
  | Fin _, PInf | Fin _, NInf => Fin 0
  | PInf, Fin s => if Rlt_dec s 0 then NInf else PInf
  | NInf, Fin s => if Rlt_dec s 0 then PInf else NInf
  | _, _ => NaN
  end.

(** [a ** 2] *)
Definition fsquare (a : float) : float := fmul a a.

(** [a ** 0.5] and [np.sqrt a]; the source only takes the root of sums
    of squares, a negative argument gives [nan] as in NumPy. *)
Definition fsqrt (a : float) : float :=
  match a with
  | Fin r => if Rlt_dec r 0 then NaN else Fin (sqrt r)
  | PInf => PInf
  | NInf => NaN
  | NaN => NaN
  end.

(** [a < b]: false as soon as one side is [nan]. *)
Definition fltb (a b : float) : bool :=
  match a, b with
  | NaN, _ | _, NaN => false
  | Fin r, Fin s => Rltb r s
  | NInf, Fin _ | NInf, PInf | Fin _, PInf => true
  | _, _ => false
  end.

(** [a == b]: [nan] equals nothing. *)
Definition feqb (a b : float) : bool :=
  match a, b with
  | Fin r, Fin s => Reqb r s
  | PInf, PInf | NInf, NInf => true
  | _, _ => false
  end.

Coercion Fin : R >-> float.

(** The computations that only raise or return: [result] as a monad. *)
Definition rbind {A B} (r : result A) (k : A -> result B) : result B :=
  match r with
  | Ok a => k a
  | Raise e => Raise e
  end.

Notation "'let!' x := r 'in' k" := (rbind r (fun x => k))
  (at level 100, x pattern, r at next level, right associativity) : py_scope.

(** [l[i]] for a non-negative index. *)
Definition index {A} (l : list A) (i : nat) : result A :=
  match nth_error l i with
  | Some a => Ok a
  | None => Raise IndexError
  end.

(** ** utils.py: boolean operations on solids *)

Inductive boolop : Type := Cut | Intersect | Union.

(** The CAD kernel (CadQuery): the three boolean operations of a solid
    with another one.  A kernel operation returns a new solid or raises. *)
Class Kernel (Solid : Type) : Type :=
  kernel : boolop -> Solid -> Solid -> result Solid.

(** A paramak shape, as far as the boolean operations look into it: its
    [solid] attribute. *)
Module Shape.
Record t (Solid : Type) : Type := mk { solid : Solid }.
Arguments mk {Solid} solid.
Arguments solid {Solid} _.
End Shape.

(** The second argument of the boolean operations: one shape, or an
    iterable of shapes ([isinstance(cutter, Iterable)]). *)
Inductive operand (Solid : Type) : Type :=
| One (s : Shape.t Solid)
| Several (l : list (Shape.t Solid)).
Arguments One {Solid} s.
Arguments Several {Solid} l.

(** The calls made to the kernel, oldest first. *)
Definition kernel_log (Solid : Type) : Type :=
  list (boolop * Solid * Solid).

(** [a.cut(b)], [a.intersect(b)], [a.union(b)]: the call is recorded and
    the kernel's answer returned. *)
Definition kernel_call {Solid} `{Kernel Solid} (op : boolop) (a b : Solid)
  : M (kernel_log Solid) Solid :=
  fun log => (kernel op a b, log ++ [(op, a, b)]).

(** [for b in l: a = f(a, b)] *)
Fixpoint for_each {S A B} (l : list B) (f : A -> B -> M S A) (a : A)
  : M S A :=
  match l with
  | [] => ret a
  | b :: l' => a' <- f a b ;; for_each l' f a'
  end.

Section BooleanOperations.
Context {Solid : Type} `{Kernel Solid}.

(** [cut_solid] *)
Definition cut_solid (solid : Solid) (cutter : operand Solid)
  : M (kernel_log Solid) Solid :=
  match cutter with
  | Several l =>
      for_each l
        (fun solid cutting_solid =>
           kernel_call Cut solid (Shape.solid cutting_solid))
        solid
  | One cutter => kernel_call Cut solid (Shape.solid cutter)
  end.

(** [intersect_solid] *)
Definition intersect_solid (solid : Solid) (intersecter : operand Solid)
  : M (kernel_log Solid) Solid :=
  match intersecter with
  | Several l =>
      for_each l
        (fun solid intersecting_solid =>
           kernel_call Intersect solid (Shape.solid intersecting_solid))
        solid
  | One intersecter =>
      kernel_call Intersect solid (Shape.solid intersecter)
  end.

(** [union_solid] *)
Definition union_solid (solid : Solid) (joiner : operand Solid)
  : M (kernel_log Solid) Solid :=
  match joiner with
  | Several l =>
      for_each l
        (fun solid joining_solid =>
           kernel_call Union solid (Shape.solid joining_solid))
        solid
  | One joiner => kernel_call Union solid (Shape.solid joiner)
  end.

(** The function of [utils.py] that performs a given operation. *)
Definition boolean_solid (op : boolop)
  : Solid -> operand Solid -> M (kernel_log Solid) Solid :=
  match op with
  | Cut => cut_solid
  | Intersect => intersect_solid
  | Union => union_solid
  end.

(** One kernel operation per operand, applied to the accumulated solid. *)
Definition fold_kernel (op : boolop) (l : list (Shape.t Solid)) (base : Solid)
  : M (kernel_log Solid) Solid :=
  for_each l (fun acc c => kernel_call op acc (Shape.solid c)) base.

(** The value the specification gives for a collection: [result = base],
    then [result = op(result, operand)] for each operand in order. *)
Definition combine_value (op : boolop) (base : Solid)
    (l : list (Shape.t Solid)) : result Solid :=
  fold_left (fun r c => let! a := r in kernel op a (Shape.solid c)) l (Ok base).

End BooleanOperations.

(** ** utils.py: angles, points and circles *)

(** Python's [x % m] on floats, for a divisor [m] other than zero: the
    remainder has the sign of the divisor, [x - m * floor(x / m)].  The
    only divisor in the source is the literal [360]. *)
Definition py_mod (x m : R) : R := x - IZR (Int_part (x / m)) * m.

(** [diff_between_angles] *)
Definition diff_between_angles (a b : R) : R :=
  let c := py_mod (b - a) 360 in
  if Rgtb c 180 then c - 360 else c.

(** [np.linalg.norm] of a vector of two finite components. *)
Definition norm2 (u : R * R) : R := sqrt (fst u * fst u + snd u * snd u).

(** [distance_between_two_points] *)
Definition distance_between_two_points (A B : point) : R :=
  let '(xa, ya) := A in
  let '(xb, yb) := B in
  let u_vec := (xb - xa, yb - ya) in
  norm2 u_vec.

(** [extend].  [u_vec /= np.linalg.norm(u_vec)] is NumPy's element-wise
    division: a zero norm gives [nan] or an infinity, it does not raise. *)
Definition extend (A B : point) (L : R) : result (float * float) :=
  let '(xa, ya) := A in
  let '(xb, yb) := B in
  let u_vec := (xb - xa, yb - ya) in
  let n := norm2 u_vec in
  let u_vec := (fdiv (fst u_vec) n, fdiv (snd u_vec) n) in
  let xc := fadd xa (fmul L (fst u_vec)) in
  let yc := fadd ya (fmul L (snd u_vec)) in
  Ok (xc, yc).

(** What [find_center_point_of_circle] returns: the centre, [None] for
    three points on a line, and the radius, [np.inf] in that case. *)
Definition circle : Type := (option point * float)%type.

(** The determinant [det] of [find_center_point_of_circle]. *)
Definition circle_det (point1 point2 point3 : point) : R :=
  (fst point1 - fst point2) * (snd point2 - snd point3)
  - (fst point2 - fst point3) * (snd point1 - snd point2).

(** [find_center_point_of_circle] *)
Definition find_center_point_of_circle (point1 point2 point3 : point)
  : result circle :=
  let temp := fst point2 * fst point2 + snd point2 * snd point2 in
  let bc := (fst point1 * fst point1 + snd point1 * snd point1 - temp) / 2 in
  let cd := (temp - fst point3 * fst point3 - snd point3 * snd point3) / 2 in
  let det := circle_det point1 point2 point3 in
  if Rltb (Rabs det) 1.0e-6 then Ok (None, PInf)
  else
    let cx := (bc * (snd point2 - snd point3)
               - cd * (snd point1 - snd point2)) / det in
    let cy := ((fst point1 - fst point2) * cd
               - (fst point2 - fst point3) * bc) / det in
    let radius := sqrt ((cx - fst point1) ^ 2 + (cy - snd point1) ^ 2) in
    Ok (Some (cx, cy), Fin radius).

(** ** utils.py: selectors *)

(** What CadQuery hands to a selector: faces with an [Area()], edges with
    a [Length()]. *)
Class HasArea (Face : Type) : Type := Area : Face -> R.
Class HasLength (Edge : Type) : Type := Length : Edge -> R.

Module FaceAreaSelector.

Record t : Type := mk { area : R; tol : R }.

(** [__init__(self, area, tol=0.1)] *)
Definition init (area : R) (tol : option R) : t :=
  mk area (match tol with Some v => v | None => 0.1 end).

(** [filter] *)
Definition filter {Face} `{HasArea Face} (self : t)
    (objectList : list Face) : result (list Face) :=
  let new_obj_list :=
    fold_left
      (fun new_obj_list obj =>
         let face_area := Area obj in
         if Rgtb face_area (area self - tol self)
            && Rltb face_area (area self + tol self)
         then new_obj_list ++ [obj]
         else new_obj_list)
      objectList [] in
  Ok new_obj_list.

End FaceAreaSelector.

(** The selector of the specification: the features whose measure lies
    strictly inside [(target - tolerance, target + tolerance)], in the
    order they are presented. *)
Definition select_by_measure {F} (measure : F -> R) (features : list F)
    (target tolerance : R) : list F :=
  List.filter
    (fun f => Rgtb (measure f) (target - tolerance)
              && Rltb (measure f) (target + tolerance))
    features.

(** What [print] writes. *)
Inductive output : Type :=
| Print_filleting_edge            (* print('filleting edge#') *)
| Print_length (n : nat).         (* print('length(new_obj_list)', n) *)

Definition print (o : output) : M (list output) unit :=
  modify (fun out => out ++ [o]).

Module EdgeLengthSelector.

Record t : Type := mk { length : R; tol : R }.

(** [__init__(self, length, tol=0.1)] *)
Definition init (length : R) (tol : option R) : t :=
  mk length (match tol with Some v => v | None => 0.1 end).

(** [filter] *)
Definition filter {Edge} `{HasLength Edge} (self : t)
    (objectList : list Edge) : M (list output) (list Edge) :=
  print Print_filleting_edge ;;
  let new_obj_list :=
    fold_left
      (fun new_obj_list obj =>
         let edge_len := Length obj in
         if Rgtb edge_len (length self - tol self)
            && Rltb edge_len (length self + tol self)
         then new_obj_list ++ [obj]
         else new_obj_list)
      objectList [] in
  print (Print_length (List.length new_obj_list)) ;;
  ret new_obj_list.

End EdgeLengthSelector.

(** ** utils.py: the offset curve *)

(** [np.diff]: the differences of consecutive entries. *)
Fixpoint np_diff (l : list float) : list float :=
  match l with
  | a :: (b :: _) as l' => fsub b a :: np_diff l'
  | _ => []
  end.

(** [a / b] on NumPy arrays: element-wise, an array of one entry is
    broadcast against the other, other lengths that differ raise. *)
Definition np_divide (a b : list float) : result (list float) :=
  if (length a =? length b)%nat then
    Ok (map (fun pq => fdiv (fst pq) (snd pq)) (combine a b))
  else
    match a, b with
    | [p], _ => Ok (map (fun q => fdiv p q) b)
    | _, [q] => Ok (map (fun p => fdiv p q) a)
    | _, _ => Raise ValueError_broadcast
    end.

(** [for i in range_: a = body(i, a)], where the body may raise. *)
Fixpoint for_range {A} (range_ : list nat) (body : nat -> A -> result A)
    (a : A) : result A :=
  match range_ with
  | [] => Ok a
  | i :: rest => let! a' := body i a in for_range rest body a'
  end.

Module AddThickness.

(** The local variables that live across iterations of the loop of
    [add_thickness]; [convex] is unbound until first assigned. *)
Record locals : Type := mk {
  convex : option bool;
  x_outer : list float;
  y_outer : list float
}.

(** The normal candidate [(nx, ny)] for a slope [dy_dx[i]]. *)
Definition normal_of_slope (d : float) : float * float :=
  if feqb d NInf then (Fin 1, Fin 0)
  else if feqb d PInf then (Fin (-1), Fin 0)
  else (fneg d, Fin 1).

(** From [if convex:] to the outer point: the normal is flipped when
    [convex], normalised, and the sample [(xi, yi)] displaced. *)
Definition outer_point (xi yi thickness : float) (n : float * float)
    (convex : bool) : float * float :=
  let '(nx, ny) := n in
  let '(nx, ny) :=
    if convex then (fmul nx (Fin (-1)), fmul ny (Fin (-1)))
    else (nx, ny) in
  let normal_vector_norm := fsqrt (fadd (fsquare nx) (fsquare ny)) in
  let nx := fdiv nx normal_vector_norm in
  let ny := fdiv ny normal_vector_norm in
  let val_x_outer := fadd xi (fmul thickness nx) in
  let val_y_outer := fadd yi (fmul thickness ny) in
  (val_x_outer, val_y_outer).

(** One iteration of the loop. *)
Definition body (x y : list float) (thickness : float)
    (dy_dx : list float) (i : nat) (st : locals) : result locals :=
  let! d := index dy_dx i in
  let n := normal_of_slope d in
  let! convex' :=
    (if negb (i + 1 =? length dy_dx)%nat then
       let! xi := index x i in
       let! xi1 := index x (i + 1) in
       if fltb xi xi1 then Ok (Some false) else Ok (Some true)
     else Ok (convex st)) in
  let! c :=
    (match convex' with
     | Some c => Ok c
     | None => Raise UnboundLocalError
     end) in
  let! xi := index x i in
  let! yi := index y i in
  let '(val_x_outer, val_y_outer) := outer_point xi yi thickness n c in
  Ok (mk convex'
         (x_outer st ++ [val_x_outer])
         (y_outer st ++ [val_y_outer])).

(** [add_thickness] *)
Definition add_thickness (x y : list float) (thickness : float)
    (dy_dx : option (list float)) : result (list float * list float) :=
  let! dy_dx :=
    (match dy_dx with
     | None => np_divide (np_diff y) (np_diff x)
     | Some d => Ok d
     end) in
  let! st :=
    for_range (seq 0 (length dy_dx)) (body x y thickness dy_dx)
      (mk None [] []) in
  Ok (x_outer st, y_outer st).

(** The convexity decision at index [i] when it is computed there: true
    unless [x[i] < x[i+1]]. *)
Definition convex_at (x : list float) (i : nat) : bool :=
  if fltb (nth i x NaN) (nth (i + 1) x NaN) then false else true.

(** The index whose convexity decision the sample [i] is displaced with,
    in a loop over [n] slopes: its own, except for the last sample, which
    takes the one of the sample before. *)
Definition flag_index (n i : nat) : nat :=
  if (i + 1 =? n)%nat then i - 1 else i.

(** The outer point the loop over [n] slopes appends for the sample [i]. *)
Definition sample (x y : list float) (thickness : float)
    (dy_dx : list float) (i : nat) : float * float :=
  outer_point (nth i x NaN) (nth i y NaN) thickness
    (normal_of_slope (nth i dy_dx NaN))
    (convex_at x (flag_index (length dy_dx) i)).

End AddThickness.

(** ** utils.py: rotation and line fit *)

(** [rotate]; [math.cos] and [math.sin] are the real cosine and sine. *)
Definition rotate (origin point : R * R) (angle : R) : R * R :=
  let '(ox, oy) := origin in
  let '(px, py) := point in
  let qx := ox + cos angle * (px - ox) - sin angle * (py - oy) in
  let qy := oy + sin angle * (px - ox) + cos angle * (py - oy) in
  (qx, qy).

(** [np.linalg.lstsq(A, b, rcond=None)[0]] for a matrix [A] of two
    columns, given by its rows: NumPy's solver, taken as a parameter. *)
Class Lstsq : Type := lstsq : list (R * R) -> list R -> R * R.

(** What NumPy documents of the solution: it minimises the squared
    Euclidean norm of [b - A x], and among the minimisers it is the one of
    smallest norm. *)
Definition residual (A : list (R * R)) (b : list R) (sol : R * R) : R :=
  fold_right
    (fun rb acc =>
       (fst (fst rb) * fst sol + snd (fst rb) * snd sol - snd rb) ^ 2 + acc)
    0 (combine A b).

Definition least_squares (A : list (R * R)) (b : list R) (sol : R * R)
  : Prop :=
  (forall sol' : R * R, residual A b sol <= residual A b sol')
  /\ (forall sol' : R * R,
        residual A b sol' = residual A b sol ->
        fst sol ^ 2 + snd sol ^ 2 <= fst sol' ^ 2 + snd sol' ^ 2).

(** The matrix [np.vstack([x_coords, np.ones(len(x_coords))]).T]: one
    row [(x, 1)] per abscissa. *)
Definition design_matrix (x_coords : list R) : list (R * R) :=
  map (fun x => (x, 1)) x_coords.

(** [coefficients_of_line_from_points] *)
Definition coefficients_of_line_from_points `{Lstsq} (point1 point2 : point)
  : R * R :=
  let points := [point1; point2] in
  let x_coords := map fst points in
  let y_coords := map snd points in
  let A := design_matrix x_coords in
  let '(m, c) := lstsq A y_coords in
  (m, c).

(** * Properties *)

(** ** Comparisons *)

Lemma Rltb_spec (a b : R) : reflect (a < b) (Rltb a b).
Proof. unfold Rltb. destruct (Rlt_dec a b); constructor; assumption. Qed.

Lemma Rleb_spec (a b : R) : reflect (a <= b) (Rleb a b).
Proof. unfold Rleb. destruct (Rle_dec a b); constructor; assumption. Qed.

Lemma Rgtb_spec (a b : R) : reflect (a > b) (Rgtb a b).
Proof. unfold Rgtb. apply Rltb_spec. Qed.

Lemma Rgeb_spec (a b : R) : reflect (a >= b) (Rgeb a b).
Proof.
  unfold Rgeb. destruct (Rleb_spec b a); constructor; lra.
Qed.

Lemma Reqb_spec (a b : R) : reflect (a = b) (Reqb a b).
Proof. unfold Reqb. destruct (Req_dec_T a b); constructor; assumption. Qed.

(** Decides the comparisons of concrete reals met in a goal. *)
Ltac Rcompare :=
  repeat match goal with
    | |- context [Rltb ?a ?b] => destruct (Rltb_spec a b); try lra
    | |- context [Rleb ?a ?b] => destruct (Rleb_spec a b); try lra
    | |- context [Rgtb ?a ?b] => destruct (Rgtb_spec a b); try lra
    | |- context [Rgeb ?a ?b] => destruct (Rgeb_spec a b); try lra
    | |- context [Reqb ?a ?b] => destruct (Reqb_spec a b); try lra
    | |- context [Req_dec_T ?a ?b] => destruct (Req_dec_T a b); try lra
    | |- context [Rlt_dec ?a ?b] => destruct (Rlt_dec a b); try lra
    end.

(** ** The centre-column cylinder *)

Module CenterColumnShieldCylinderFacts.
Import CenterColumnShieldCylinder.
Import CenterColumnShieldCylinderSource.

Lemma find_points_raises_inner (self : t) :
  inner_radius self >= outer_radius self ->
  find_points self =
    (Raise (ValueError_inner_larger (inner_radius self) (outer_radius self)),
     self).
Proof.
  intros Hge. unfold find_points, bind, get, raise.
  destruct (Rgeb_spec (inner_radius self) (outer_radius self)); [reflexivity | contradiction].
Qed.

Lemma find_points_raises_height (self : t) :
  inner_radius self < outer_radius self ->
  height self = None ->
  find_points self = (Raise ValueError_height_unset, self).
Proof.
  intros Hlt Hh. unfold find_points, bind, get, raise.
  destruct (Rgeb_spec (inner_radius self) (outer_radius self)); [lra |].
  rewrite Hh. reflexivity.
Qed.

Lemma find_points_ok (self : t) (h : R) :
  inner_radius self < outer_radius self ->
  height self = Some h ->
  find_points self =
    (Ok tt,
     mk (Some h) (inner_radius self) (outer_radius self)
       (Some [ (inner_radius self, h / 2);
               (outer_radius self, h / 2);
               (outer_radius self, - h / 2);
               (inner_radius self, - h / 2) ])).
Proof.
  intros Hlt Hh. unfold find_points, bind, get, set_points, modify.
  destruct (Rgeb_spec (inner_radius self) (outer_radius self)); [lra |].
  rewrite Hh. cbv beta. rewrite Hh. reflexivity.
Qed.

(** The body of [find_points], l.67-89, on an object as the class is
    meant to build it.  With [inner_radius < outer_radius] and the height
    set, [find_points] succeeds and stores exactly the four corners
    [(inner, h/2)], [(outer, h/2)], [(outer, -h/2)], [(inner, -h/2)], a
    rectangle of width [outer - inner] and height [h]; with
    [inner_radius >= outer_radius] (equality included) it raises the
    [ValueError] and has stored no points. *)
Theorem find_points_rectangle (h : option R) (inner outer : R)
    (pts0 : option (list point)) :
  let self := mk h inner outer pts0 in
  (forall hv : R, inner < outer -> h = Some hv ->
     exists p1 p2 p3 p4 : point,
       find_points self =
         (Ok tt, mk h inner outer (Some [p1; p2; p3; p4]))
       /\ p1 = (inner, hv / 2) /\ p2 = (outer, hv / 2)
       /\ p3 = (outer, - hv / 2) /\ p4 = (inner, - hv / 2)
       /\ fst p2 - fst p1 = outer - inner
       /\ fst p3 - fst p4 = outer - inner
       /\ snd p1 - snd p4 = hv
       /\ snd p2 - snd p3 = hv
       /\ 0 < outer - inner)
  /\ (inner >= outer ->
      find_points self = (Raise (ValueError_inner_larger inner outer), self)).
Proof.
  intros self. split.
  - intros hv Hlt Hh.
    exists (inner, hv / 2), (outer, hv / 2), (outer, - hv / 2), (inner, - hv / 2).
    split.
    + rewrite (find_points_ok self hv Hlt Hh). subst h. reflexivity.
    + cbn [fst snd]. repeat split; lra.
  - intros Hge. exact (find_points_raises_inner self Hge).
Qed.

(** The body at the inputs of the specification: inner 5, outer 10,
    height 20 gives the four corners; inner 5, outer 5 raises. *)
Lemma find_points_rectangle_witness :
  find_points (init (Some 20) 5 10) =
    (Ok tt, mk (Some 20) 5 10 (Some [(5, 10); (10, 10); (10, -10); (5, -10)]))
  /\ find_points (init (Some 20) 5 5) =
       (Raise (ValueError_inner_larger 5 5), init (Some 20) 5 5).
Proof.
  split.
  - destruct (find_points_rectangle (Some 20) 5 10 None) as [Hok _].
    destruct (Hok 20 ltac:(lra) eq_refl)
      as (p1 & p2 & p3 & p4 & Hrun & -> & -> & -> & -> & _).
    unfold init. rewrite Hrun.
    replace (20 / 2) with 10 by lra. replace (- (20) / 2) with (-10) by lra.
    reflexivity.
  - destruct (find_points_rectangle (Some 20) 5 5 None) as [_ Hraise].
    apply Hraise. lra.
Defined.

(** C1.  As written the class cannot be used: the parameter list of
    [__init__] does not parse, a string being followed by a name with no
    comma between them (l.26-27), so that for every height and radii,
    and for inner 5, outer 10, height 20 as for inner 5, outer 5,
    constructing the shell and calling [find_points] ends in Python's
    [SyntaxError]: neither the four points nor the [ValueError] can be
    reached.  With the comma after the default of [name] the list parses
    into the nine parameters of the docstring, and the same call stores
    the four corners [(5, 10)], [(10, 10)], [(10, -10)], [(5, -10)]. *)
Theorem find_points_unreachable_as_written :
  parse_parameters init_parameters = None
  /\ (forall (h : option R) (inner outer : R),
        construct_and_find_points init_parameters h inner outer = SyntaxError)
  /\ construct_and_find_points init_parameters (Some 20) 5 10 = SyntaxError
  /\ construct_and_find_points init_parameters (Some 20) 5 5 = SyntaxError
  /\ parse_parameters init_parameters_meant = Some parameters_meant
  /\ construct_and_find_points init_parameters_meant (Some 20) 5 10
     = Ran (Ok tt,
            mk (Some 20) 5 10 (Some [(5, 10); (10, 10); (10, -10); (5, -10)]))
  /\ construct_and_find_points init_parameters_meant (Some 20) 5 5
     = Ran (Raise (ValueError_inner_larger 5 5), init (Some 20) 5 5).
Proof.
  assert (Hwritten : parse_parameters init_parameters = None) by reflexivity.
  assert (Hmeant : parse_parameters init_parameters_meant = Some parameters_meant)
    by reflexivity.
  split; [exact Hwritten |].
  split; [intros h inner outer; unfold construct_and_find_points;
          rewrite Hwritten; reflexivity |].
  split; [unfold construct_and_find_points; rewrite Hwritten; reflexivity |].
  split; [unfold construct_and_find_points; rewrite Hwritten; reflexivity |].
  split; [exact Hmeant |].
  unfold construct_and_find_points. rewrite Hmeant. split; f_equal.
  - unfold init. rewrite (find_points_ok _ 20); cbn [inner_radius outer_radius height];
      [| lra | reflexivity].
    replace (20 / 2) with 10 by lra. replace (- (20) / 2) with (-10) by lra.
    reflexivity.
  - apply find_points_raises_inner. cbn. lra.
Qed.

(** C10.  [find_points] raises exactly when [inner_radius >=
    outer_radius] or the height is unset, and whenever it raises the
    object is left as it was: no points have been assigned. *)
Theorem find_points_error_keeps_state (self : t) :
  (forall (e : exn) (self' : t),
      find_points self = (Raise e, self') ->
      self' = self /\ points self' = points self
      /\ (inner_radius self >= outer_radius self \/ height self = None))
  /\ (inner_radius self >= outer_radius self \/ height self = None ->
      exists e : exn, find_points self = (Raise e, self)).
Proof.
  split.
  - intros e self' Hrun.
    destruct (Rlt_dec (inner_radius self) (outer_radius self)) as [Hlt | Hge].
    + destruct (height self) as [h |] eqn:Hh.
      * rewrite (find_points_ok self h Hlt Hh) in Hrun. discriminate.
      * rewrite (find_points_raises_height self Hlt Hh) in Hrun.
        inversion Hrun; subst. auto.
    + rewrite (find_points_raises_inner self) in Hrun by lra.
      inversion Hrun; subst. split; [reflexivity | split; [reflexivity | left; lra]].
  - intros [Hge | Hh].
    + eexists. apply find_points_raises_inner. exact Hge.
    + destruct (Rlt_dec (inner_radius self) (outer_radius self)) as [Hlt | Hge].
      * eexists. apply find_points_raises_height; assumption.
      * eexists. apply find_points_raises_inner. lra.
Qed.

(** C10 on an object that already holds points: equal radii, and an
    unset height. *)
Lemma find_points_error_keeps_state_witness :
  (exists e, find_points (mk (Some 20) 5 5 (Some [(0, 0)]))
             = (Raise e, mk (Some 20) 5 5 (Some [(0, 0)])))
  /\ (exists e, find_points (mk None 5 10 (Some [(0, 0)]))
                = (Raise e, mk None 5 10 (Some [(0, 0)]))).
Proof.
  split.
  - apply (find_points_error_keeps_state (mk (Some 20) 5 5 (Some [(0, 0)]))).
    left. cbn. lra.
  - apply (find_points_error_keeps_state (mk None 5 10 (Some [(0, 0)]))).
    right. reflexivity.
Defined.

End CenterColumnShieldCylinderFacts.

(** ** The boolean operations *)

Section BooleanFacts.
Context {Solid : Type} `{Kernel Solid}.

Lemma boolean_solid_several (op : boolop) (base : Solid)
    (l : list (Shape.t Solid)) :
  boolean_solid op base (Several l) = fold_kernel op l base.
Proof. destruct op; reflexivity. Qed.

Lemma boolean_solid_one (op : boolop) (base : Solid) (c : Shape.t Solid) :
  boolean_solid op base (One c) = kernel_call op base (Shape.solid c).
Proof. destruct op; reflexivity. Qed.

Lemma for_each_cons {S A B} (b : B) (l : list B) (f : A -> B -> M S A)
    (a : A) (s : S) :
  for_each (b :: l) f a s =
    match f a b s with
    | (Ok a', s') => for_each l f a' s'
    | (Raise e, s') => (Raise e, s')
    end.
Proof. reflexivity. Qed.

Lemma combine_value_raise (op : boolop) (e : exn) (l : list (Shape.t Solid)) :
  fold_left (fun r c => let! a := r in kernel op a (Shape.solid c)) l (Raise e)
  = Raise e.
Proof. induction l as [| c l IH]; [reflexivity | exact IH]. Qed.

Lemma fold_kernel_value (op : boolop) (l : list (Shape.t Solid)) :
  forall (base : Solid) (log : kernel_log Solid),
    fst (fold_kernel op l base log) = combine_value op base l.
Proof.
  unfold fold_kernel, combine_value.
  induction l as [| c l IH]; intros base log.
  - reflexivity.
  - rewrite for_each_cons. unfold kernel_call at 1. cbn [fold_left rbind].
    destruct (kernel op base (Shape.solid c)) as [a | e].
    + apply IH.
    + rewrite combine_value_raise. reflexivity.
Qed.

Lemma fold_kernel_sequential (op : boolop) (l : list (Shape.t Solid)) :
  forall (base : Solid) (log : kernel_log Solid),
    fold_kernel op l base log =
    for_each l (fun acc c => boolean_solid op acc (One c)) base log.
Proof.
  unfold fold_kernel.
  induction l as [| c l IH]; intros base log.
  - reflexivity.
  - rewrite !for_each_cons, boolean_solid_one.
    destruct (kernel_call op base (Shape.solid c) log) as [[a | e] log'].
    + apply IH.
    + reflexivity.
Qed.

Lemma fold_kernel_two (op : boolop) (s1 s2 : Shape.t Solid) (base : Solid)
    (log : kernel_log Solid) :
  fold_kernel op [s1; s2] base log =
  (r <- boolean_solid op base (One s1) ;; boolean_solid op r (One s2)) log.
Proof.
  unfold fold_kernel, bind. rewrite for_each_cons, !boolean_solid_one.
  destruct (kernel_call op base (Shape.solid s1) log) as [[a | e] log'].
  - rewrite for_each_cons. rewrite boolean_solid_one.
    destruct (kernel_call op a (Shape.solid s2) log') as [[a' | e'] log'']; reflexivity.
  - reflexivity.
Qed.

End BooleanFacts.

(** C2.  For each of [cut_solid], [intersect_solid] and [union_solid], a
    call on a list of operands is the left-to-right fold of the
    single-operand call: it behaves (value, exception and kernel calls) as
    the sequence of single-operand calls on the accumulated solid, its
    value is [op(...op(op(base, s1), s2)..., sn)], and on [[s1; s2]] it is
    the single call on [s1] followed by the single call on [s2]. *)
Theorem boolean_fold_left_to_right :
  forall (Solid : Type) (K : Kernel Solid) (op : boolop) (base : Solid)
         (l : list (Shape.t Solid)) (log : kernel_log Solid),
    let f := match op with
             | Cut => cut_solid
             | Intersect => intersect_solid
             | Union => union_solid
             end in
    f base (Several l) log
      = for_each l (fun acc c => f acc (One c)) base log
    /\ fst (f base (Several l) log)
       = fold_left (fun r c => let! a := r in kernel op a (Shape.solid c)) l (Ok base)
    /\ (forall s1 s2 : Shape.t Solid,
          f base (Several [s1; s2]) log
          = (r <- f base (One s1) ;; f r (One s2)) log).
Proof.
  intros Solid K op base l log f.
  assert (Hf : f = boolean_solid op) by (destruct op; reflexivity).
  rewrite Hf, boolean_solid_several. repeat split.
  - apply fold_kernel_sequential.
  - apply fold_kernel_value.
  - intros s1 s2. rewrite boolean_solid_several. apply fold_kernel_two.
Qed.

(** C9.  With an empty collection of operands each of the three
    operations returns the base solid, and the kernel has not been
    called: the log of kernel calls is the one before the call. *)
Theorem boolean_empty_is_identity :
  forall (Solid : Type) (K : Kernel Solid) (base : Solid)
         (log : kernel_log Solid),
    cut_solid base (Several []) log = (Ok base, log)
    /\ intersect_solid base (Several []) log = (Ok base, log)
    /\ union_solid base (Several []) log = (Ok base, log).
Proof. intros Solid K base log. repeat split. Qed.

(** ** The selectors *)

Lemma fold_left_append_filter {A} (p : A -> bool) (l : list A) :
  forall acc : list A,
    fold_left (fun acc x => if p x then acc ++ [x] else acc) l acc
    = acc ++ List.filter p l.
Proof.
  induction l as [| x l IH]; intros acc; cbn [fold_left List.filter].
  - symmetry. apply app_nil_r.
  - rewrite IH. destruct (p x).
    + rewrite <- app_assoc. reflexivity.
    + reflexivity.
Qed.

Lemma select_by_measure_In {F} (measure : F -> R) (features : list F)
    (target tolerance : R) (f : F) :
  In f (select_by_measure measure features target tolerance) <->
  In f features
  /\ target - tolerance < measure f /\ measure f < target + tolerance.
Proof.
  unfold select_by_measure. rewrite filter_In, andb_true_iff.
  destruct (Rgtb_spec (measure f) (target - tolerance));
    destruct (Rltb_spec (measure f) (target + tolerance));
    intuition (try discriminate; try lra).
Qed.

Lemma face_filter_select {Face} `{HasArea Face} (self : FaceAreaSelector.t)
    (faces : list Face) :
  FaceAreaSelector.filter self faces =
  Ok (select_by_measure Area faces
        (FaceAreaSelector.area self) (FaceAreaSelector.tol self)).
Proof.
  unfold FaceAreaSelector.filter, select_by_measure.
  rewrite (fold_left_append_filter
             (fun obj => Rgtb (Area obj)
                           (FaceAreaSelector.area self - FaceAreaSelector.tol self)
                         && Rltb (Area obj)
                              (FaceAreaSelector.area self + FaceAreaSelector.tol self))).
  reflexivity.
Qed.

Lemma edge_filter_select {Edge} `{HasLength Edge} (self : EdgeLengthSelector.t)
    (edges : list Edge) (out : list output) :
  let sel := select_by_measure Length edges
               (EdgeLengthSelector.length self) (EdgeLengthSelector.tol self) in
  EdgeLengthSelector.filter self edges out =
  (Ok sel, out ++ [Print_filleting_edge] ++ [Print_length (length sel)]).
Proof.
  unfold EdgeLengthSelector.filter, select_by_measure, bind, print, modify, ret.
  cbv beta iota.
  rewrite (fold_left_append_filter
             (fun obj => Rgtb (Length obj)
                           (EdgeLengthSelector.length self - EdgeLengthSelector.tol self)
                         && Rltb (Length obj)
                              (EdgeLengthSelector.length self + EdgeLengthSelector.tol self))).
  cbn [app]. rewrite <- app_assoc. reflexivity.
Qed.

(** C3.  Both selectors return exactly the features whose measure lies
    strictly between [target - tolerance] and [target + tolerance], in the
    order presented; none matching gives the empty list, not an exception;
    the tolerance is 0.1 when not given; with target 6.28 and that
    tolerance, the lengths 6.0, 6.27, 6.3, 6.5 give 6.27 and 6.3. *)
Theorem selectors_filter_by_measure :
  forall (Face : Type) (HA : HasArea Face) (Edge : Type) (HL : HasLength Edge)
         (target : R) (tolerance : option R)
         (faces : list Face) (edges : list Edge) (out : list output),
    let tol := match tolerance with Some v => v | None => 0.1 end in
    let fsel := select_by_measure Area faces target tol in
    let esel := select_by_measure Length edges target tol in
    FaceAreaSelector.filter (FaceAreaSelector.init target tolerance) faces
      = Ok fsel
    /\ fst (EdgeLengthSelector.filter
              (EdgeLengthSelector.init target tolerance) edges out)
       = Ok esel
    /\ (forall f, In f fsel <->
                  In f faces /\ target - tol < Area f < target + tol)
    /\ (forall e, In e esel <->
                  In e edges /\ target - tol < Length e < target + tol)
    /\ ((forall f, In f faces ->
                   ~ (target - tol < Area f < target + tol)) -> fsel = [])
    /\ ((forall e, In e edges ->
                   ~ (target - tol < Length e < target + tol)) -> esel = [])
    /\ FaceAreaSelector.tol (FaceAreaSelector.init target None) = 0.1
    /\ EdgeLengthSelector.tol (EdgeLengthSelector.init target None) = 0.1
    /\ fst (@EdgeLengthSelector.filter R (fun l => l)
              (EdgeLengthSelector.init 6.28 None) [6.0; 6.27; 6.3; 6.5] out)
       = Ok [6.27; 6.3].
Proof.
  intros Face HA Edge HL target tolerance faces edges out tol fsel esel.
  assert (Hnone : forall (F : Type) (m : F -> R) (l : list F),
             (forall f, In f l -> ~ (target - tol < m f < target + tol)) ->
             select_by_measure m l target tol = []).
  { intros F m l Hno.
    destruct (select_by_measure m l target tol) as [| f sel] eqn:Hsel;
      [reflexivity |].
    assert (Hin : In f (select_by_measure m l target tol))
      by (rewrite Hsel; left; reflexivity).
    apply select_by_measure_In in Hin. destruct Hin as [Hin Hm].
    exfalso. exact (Hno f Hin Hm). }
  repeat match goal with |- _ /\ _ => split end.
  - apply face_filter_select.
  - rewrite edge_filter_select. reflexivity.
  - intros f. apply select_by_measure_In.
  - intros e. apply select_by_measure_In.
  - apply Hnone.
  - apply Hnone.
  - reflexivity.
  - reflexivity.
  - rewrite edge_filter_select. cbn [fst]. f_equal.
    unfold select_by_measure, EdgeLengthSelector.init,
      EdgeLengthSelector.length, EdgeLengthSelector.tol, Length.
    cbn [List.filter]. Rcompare; reflexivity.
Qed.

(** C3 on areas 1 and 2 with target 6.28 and the default tolerance:
    nothing matches and the empty list is returned. *)
Lemma selectors_filter_by_measure_witness :
  @FaceAreaSelector.filter R (fun a => a)
    (FaceAreaSelector.init 6.28 None) [1; 2] = Ok [].
Proof.
  destruct (selectors_filter_by_measure R (fun a => a) R (fun l => l)
              6.28 None [1; 2] [] [])
    as (Hface & _ & _ & _ & Hempty & _).
  rewrite Hface, Hempty; [reflexivity |].
  intros f [<- | [<- | []]]; unfold Area; lra.
Defined.

(** ** Angles *)

Lemma py_mod_range (x m : R) : 0 < m -> 0 <= py_mod x m < m.
Proof.
  intros Hm. unfold py_mod.
  destruct (base_Int_part (x / m)) as [Hlo Hhi].
  assert (Hx : x = x / m * m) by (field; lra).
  set (q := IZR (Int_part (x / m))) in *.
  split.
  - assert (q * m <= x / m * m) by (apply Rmult_le_compat_r; lra). lra.
  - assert ((x / m - q) * m < 1 * m) by (apply Rmult_lt_compat_r; lra). lra.
Qed.

Lemma py_mod_congruent (x m : R) :
  exists k : Z, py_mod x m = x + m * IZR k.
Proof.
  exists (- Int_part (x / m))%Z. unfold py_mod. rewrite opp_IZR. ring.
Qed.

Lemma diff_between_angles_range (a b : R) :
  -180 < diff_between_angles a b <= 180.
Proof.
  unfold diff_between_angles.
  pose proof (py_mod_range (b - a) 360 ltac:(lra)) as Hr.
  cbv zeta. destruct (Rgtb_spec (py_mod (b - a) 360) 180); lra.
Qed.

Lemma diff_between_angles_congruent (a b : R) :
  exists k : Z, diff_between_angles a b = b - a + 360 * IZR k.
Proof.
  unfold diff_between_angles.
  destruct (py_mod_congruent (b - a) 360) as [k Hk].
  cbv zeta. destruct (Rgtb_spec (py_mod (b - a) 360) 180).
  - exists (k - 1)%Z. rewrite Hk, minus_IZR. ring.
  - exists k. exact Hk.
Qed.

(** The representative of an angle in (-180, 180] is unique. *)
Lemma half_open_turn_unique (d x : R) (k : Z) :
  -180 < d <= 180 -> -180 < x <= 180 -> d = x + 360 * IZR k -> d = x.
Proof.
  intros Hd Hx Heq.
  assert (Hk : (-1 < k < 1)%Z).
  { split; apply lt_IZR; [change (IZR (-1)) with (-1) | change (IZR 1) with 1]; lra. }
  assert (k = 0%Z) by lia. subst k. lra.
Qed.

(** C5.  [diff_between_angles a b] is [b - a] up to a whole number of
    turns and lies in (-180, 180]; from 350 to 10 it is 20 and from 10 to
    350 it is -20. *)
Theorem diff_between_angles_normalized :
  forall a b : R,
    -180 < diff_between_angles a b <= 180
    /\ (exists k : Z, diff_between_angles a b = b - a + 360 * IZR k)
    /\ diff_between_angles 350 10 = 20
    /\ diff_between_angles 10 350 = -20.
Proof.
  intros a b. split; [apply diff_between_angles_range |].
  split; [apply diff_between_angles_congruent |].
  split.
  - destruct (diff_between_angles_congruent 350 10) as [k Hk].
    apply (half_open_turn_unique _ 20 (k - 1)).
    + apply diff_between_angles_range.
    + lra.
    + rewrite Hk, minus_IZR. ring.
  - destruct (diff_between_angles_congruent 10 350) as [k Hk].
    apply (half_open_turn_unique _ (-20) (k + 1)).
    + apply diff_between_angles_range.
    + lra.
    + rewrite Hk, plus_IZR. ring.
Qed.

(** ** The circle through three points *)

Lemma find_center_degenerate (p1 p2 p3 : point) :
  Rabs (circle_det p1 p2 p3) < 1.0e-6 ->
  find_center_point_of_circle p1 p2 p3 = Ok (None, PInf).
Proof.
  intros Hdet. unfold find_center_point_of_circle. cbv zeta.
  destruct (Rltb_spec (Rabs (circle_det p1 p2 p3)) 1.0e-6);
    [reflexivity | contradiction].
Qed.

Lemma find_center_circle (p1 p2 p3 : point) :
  ~ Rabs (circle_det p1 p2 p3) < 1.0e-6 ->
  exists (c : point) (r : R),
    find_center_point_of_circle p1 p2 p3 = Ok (Some c, Fin r)
    /\ distance_between_two_points c p1 = r
    /\ distance_between_two_points c p2 = r
    /\ distance_between_two_points c p3 = r.
Proof.
  intros Hdet.
  assert (Hnz : circle_det p1 p2 p3 <> 0).
  { intros Hz. apply Hdet. rewrite Hz, Rabs_R0. lra. }
  unfold find_center_point_of_circle. cbv zeta.
  destruct (Rltb_spec (Rabs (circle_det p1 p2 p3)) 1.0e-6); [contradiction |].
  eexists (_, _), _. split; [reflexivity |].
  destruct p1 as [x1 y1], p2 as [x2 y2], p3 as [x3 y3].
  unfold distance_between_two_points, norm2, circle_det in *.
  cbn [fst snd] in *.
  repeat split; f_equal; field; exact Hnz.
Qed.

(** C4.  [find_center_point_of_circle] returns the degenerate value
    [(None, inf)], without raising, exactly when the absolute value of the
    determinant is below 1e-6; otherwise it returns a centre at the same
    distance, the returned radius, from the three points.  The points
    (0,0), (1,1), (2,2) give the degenerate value and (0,0), (2,0), (1,1)
    give centre (1,0) and radius 1. *)
Theorem find_center_point_of_circle_threshold :
  forall p1 p2 p3 : point,
    (find_center_point_of_circle p1 p2 p3 = Ok (None, PInf)
     <-> Rabs (circle_det p1 p2 p3) < 1.0e-6)
    /\ (~ Rabs (circle_det p1 p2 p3) < 1.0e-6 ->
        exists (c : point) (r : R),
          find_center_point_of_circle p1 p2 p3 = Ok (Some c, Fin r)
          /\ distance_between_two_points c p1 = r
          /\ distance_between_two_points c p2 = r
          /\ distance_between_two_points c p3 = r)
    /\ find_center_point_of_circle (0, 0) (1, 1) (2, 2) = Ok (None, PInf)
    /\ find_center_point_of_circle (0, 0) (2, 0) (1, 1)
       = Ok (Some (1, 0), Fin 1).
Proof.
  intros p1 p2 p3. repeat match goal with |- _ /\ _ => split end.
  - split.
    + intros Hres.
      destruct (Rlt_dec (Rabs (circle_det p1 p2 p3)) 1.0e-6) as [Hlt | Hge];
        [exact Hlt |].
      destruct (find_center_circle p1 p2 p3 Hge) as (c & r & Hrun & _).
      rewrite Hrun in Hres. discriminate.
    + apply find_center_degenerate.
  - apply find_center_circle.
  - apply find_center_degenerate. unfold circle_det. cbn [fst snd].
    replace ((0 - 1) * (1 - 2) - (1 - 2) * (0 - 1)) with 0 by ring.
    rewrite Rabs_R0. lra.
  - unfold find_center_point_of_circle, circle_det. cbv zeta. cbn [fst snd].
    replace ((0 - 2) * (0 - 1) - (2 - 1) * (0 - 0)) with 2 by ring.
    rewrite (Rabs_pos_eq 2) by lra.
    destruct (Rltb_spec 2 1.0e-6); [lra |].
    replace ((((0 * 0 + 0 * 0 - (2 * 2 + 0 * 0)) / 2 * (0 - 1)
               - (2 * 2 + 0 * 0 - 1 * 1 - 1 * 1) / 2 * (0 - 0)) / 2)) with 1
      by field.
    replace ((((0 - 2) * ((2 * 2 + 0 * 0 - 1 * 1 - 1 * 1) / 2)
               - (2 - 1) * ((0 * 0 + 0 * 0 - (2 * 2 + 0 * 0)) / 2)) / 2)) with 0
      by field.
    replace ((1 - 0) ^ 2 + (0 - 0) ^ 2) with 1 by ring.
    rewrite sqrt_1. reflexivity.
Qed.

(** C4 on (0,0), (2,0), (1,1), where the determinant is 2. *)
Lemma find_center_point_of_circle_threshold_witness :
  exists (c : point) (r : R),
    find_center_point_of_circle (0, 0) (2, 0) (1, 1) = Ok (Some c, Fin r)
    /\ distance_between_two_points c (0, 0) = r
    /\ distance_between_two_points c (2, 0) = r
    /\ distance_between_two_points c (1, 1) = r.
Proof.
  apply (find_center_point_of_circle_threshold (0, 0) (2, 0) (1, 1)).
  unfold circle_det. cbn [fst snd].
  replace ((0 - 2) * (0 - 1) - (2 - 1) * (0 - 0)) with 2 by ring.
  rewrite (Rabs_pos_eq 2) by lra. lra.
Defined.

(** ** Extending a segment *)

Lemma norm2_zero : norm2 (0, 0) = 0.
Proof.
  unfold norm2. cbn [fst snd].
  replace (0 * 0 + 0 * 0) with 0 by ring. apply sqrt_0.
Qed.

Lemma norm2_pos (u : R * R) : u <> (0, 0) -> 0 < norm2 u.
Proof.
  destruct u as [dx dy]. intros Hu. unfold norm2. cbn [fst snd].
  apply sqrt_lt_R0.
  destruct (Req_dec_T dx 0) as [-> | Hdx].
  - destruct (Req_dec_T dy 0) as [-> | Hdy]; [congruence | nra].
  - nra.
Qed.

Lemma norm2_square (u : R * R) :
  norm2 u * norm2 u = fst u * fst u + snd u * snd u.
Proof. unfold norm2. apply sqrt_sqrt. nra. Qed.

Lemma extend_same_point (A : point) (L : R) :
  extend A A L = Ok (NaN, NaN).
Proof.
  destruct A as [xa ya]. unfold extend. cbn [fst snd].
  rewrite !Rminus_diag, norm2_zero.
  unfold fdiv, signed_inf.
  destruct (Req_dec_T 0 0) as [_ | Hne]; [reflexivity | contradiction].
Qed.

Lemma extend_distinct_points (A B : point) (L : R) :
  A <> B ->
  let t := L / distance_between_two_points A B in
  let C := (fst A + t * (fst B - fst A), snd A + t * (snd B - snd A)) in
  extend A B L = Ok (Fin (fst C), Fin (snd C))
  /\ distance_between_two_points A C = Rabs L.
Proof.
  destruct A as [xa ya], B as [xb yb]. intros Hne.
  assert (Hu : (xb - xa, yb - ya) <> (0, 0)).
  { intros Hz. apply Hne. inversion Hz. f_equal; lra. }
  pose proof (norm2_pos _ Hu) as Hpos.
  pose proof (norm2_square (xb - xa, yb - ya)) as Hsq.
  unfold distance_between_two_points, extend. cbn [fst snd] in *.
  set (n := norm2 (xb - xa, yb - ya)) in *.
  split.
  - unfold fdiv. destruct (Req_dec_T n 0) as [Hz | _]; [lra |].
    cbn [fmul fadd]. do 3 f_equal; field; lra.
  - rewrite <- sqrt_Rsqr_abs. unfold norm2, Rsqr. cbn [fst snd]. f_equal.
    transitivity (L * L * ((xb - xa) * (xb - xa) + (yb - ya) * (yb - ya))
                  / (n * n)).
    + field. lra.
    + rewrite <- Hsq. field. lra.
Qed.

(** C8, as the code has it.  With [p1 == p2], [extend] does not raise: the
    zero vector divided by its zero norm is [nan], and [(nan, nan)] is
    returned.  With [p1 != p2] it returns the point
    [C = p1 + t (p2 - p1)] for [t = L / |p1 p2|], at distance [|L|] from
    [p1]: for [L >= 0], [t >= 0] and [C] is the point of the ray from
    [p1] through [p2] at distance [L]; for [L < 0], [t < 0] and [C] lies
    on the opposite ray. *)
Theorem extend_on_ray_or_nan :
  forall (A B : point) (L : R),
    (A = B -> extend A B L = Ok (NaN, NaN))
    /\ (A <> B ->
        let t := L / distance_between_two_points A B in
        let C := (fst A + t * (fst B - fst A), snd A + t * (snd B - snd A)) in
        extend A B L = Ok (Fin (fst C), Fin (snd C))
        /\ distance_between_two_points A C = Rabs L
        /\ (0 <= L -> 0 <= t /\ distance_between_two_points A C = L)
        /\ (L < 0 -> t < 0)).
Proof.
  intros A B L. split.
  - intros <-. apply extend_same_point.
  - intros Hne.
    destruct (extend_distinct_points A B L Hne) as [Hrun Hdist].
    cbv zeta in *. split; [exact Hrun |]. split; [exact Hdist |].
    assert (Hpos : 0 < distance_between_two_points A B).
    { destruct A as [xa ya], B as [xb yb]. apply norm2_pos.
      intros Hz. apply Hne. inversion Hz. f_equal; lra. }
    pose proof (Rinv_0_lt_compat _ Hpos) as Hinv.
    split.
    + intros HL. split.
      * apply Rmult_le_pos; [exact HL | left; exact Hinv].
      * rewrite Hdist. apply Rabs_pos_eq. exact HL.
    + intros HL. unfold Rdiv.
      replace 0 with (0 * / distance_between_two_points A B) by ring.
      apply Rmult_lt_compat_r; assumption.
Qed.

(** C8 at [p1 = p2 = (0, 0)], and at [p1 = (0, 0)], [p2 = (2, 0)] with
    length 1. *)
Lemma extend_on_ray_or_nan_witness :
  extend (0, 0) (0, 0) 1 = Ok (NaN, NaN)
  /\ (let t := 1 / distance_between_two_points (0, 0) (2, 0) in
      let C := (0 + t * (2 - 0), 0 + t * (0 - 0)) in
      extend (0, 0) (2, 0) 1 = Ok (Fin (fst C), Fin (snd C))
      /\ distance_between_two_points (0, 0) C = Rabs 1
      /\ (0 <= 1 -> 0 <= t /\ distance_between_two_points (0, 0) C = 1)
      /\ (1 < 0 -> t < 0)).
Proof.
  split.
  - apply (extend_on_ray_or_nan (0, 0) (0, 0) 1). reflexivity.
  - apply (extend_on_ray_or_nan (0, 0) (2, 0) 1).
    intros Heq. inversion Heq. lra.
Defined.

Lemma distance_origin_2_0 : distance_between_two_points (0, 0) (2, 0) = 2.
Proof.
  unfold distance_between_two_points, norm2. cbn [fst snd].
  replace ((2 - 0) * (2 - 0) + (0 - 0) * (0 - 0)) with (Rsqr 2)
    by (unfold Rsqr; ring).
  apply sqrt_Rsqr. lra.
Qed.

Lemma extend_backwards :
  extend (0, 0) (2, 0) (-1) = Ok (Fin (-1), Fin 0).
Proof.
  destruct (extend_distinct_points (0, 0) (2, 0) (-1)) as [Hrun _].
  { intros Heq. inversion Heq. lra. }
  rewrite Hrun. cbn [fst snd]. rewrite distance_origin_2_0.
  do 3 f_equal; field.
Qed.

(** C8 as stated fails in both halves.  At [p1 = p2 = (0, 0)] nothing is
    raised.  At [p1 = (0, 0)], [p2 = (2, 0)] and length -1 the point
    returned is [(-1, 0)]: it is not on the ray from [p1] through [p2],
    and its distance from [p1] is 1, not the length. *)
Lemma extend_same_point_does_not_raise :
  extend (0, 0) (0, 0) 1 = Ok (NaN, NaN)
  /\ ~ (forall (A : point) (L : R), exists e : exn, extend A A L = Raise e)
  /\ extend (0, 0) (2, 0) (-1) = Ok (Fin (-1), Fin 0)
  /\ ~ (exists t : R, 0 <= t /\ -1 = 0 + t * (2 - 0) /\ 0 = 0 + t * (0 - 0))
  /\ distance_between_two_points (0, 0) (-1, 0) = 1
  /\ distance_between_two_points (0, 0) (-1, 0) <> -1.
Proof.
  assert (Hd : distance_between_two_points (0, 0) (-1, 0) = 1).
  { unfold distance_between_two_points, norm2. cbn [fst snd].
    replace ((-1 - 0) * (-1 - 0) + (0 - 0) * (0 - 0)) with 1 by ring.
    apply sqrt_1. }
  split; [apply extend_same_point |]. split.
  { intros Hraise. destruct (Hraise (0, 0) 1) as [e He].
    rewrite extend_same_point in He. discriminate. }
  split; [exact extend_backwards |]. split.
  { intros (t & Ht & Hx & _). lra. }
  split; [exact Hd |]. rewrite Hd. lra.
Qed.

(** ** The offset curve *)

Module AddThicknessFacts.
Import AddThickness.

Lemma index_ok {A} (l : list A) (i : nat) (d : A) :
  (i < length l)%nat -> index l i = Ok (nth i l d).
Proof.
  intros Hi. unfold index.
  rewrite (nth_error_nth' l d Hi). reflexivity.
Qed.

Lemma np_diff_length (l : list float) :
  length (np_diff l) = (length l - 1)%nat.
Proof.
  induction l as [| a [| b l] IH]; [reflexivity | reflexivity |].
  change (np_diff (a :: b :: l)) with (fsub b a :: np_diff (b :: l)).
  cbn [length] in *. rewrite IH. lia.
Qed.

Lemma np_divide_same_length (a b : list float) :
  length a = length b ->
  exists q : list float, np_divide a b = Ok q /\ length q = length a.
Proof.
  intros Hlen. unfold np_divide.
  rewrite (proj2 (Nat.eqb_eq _ _) Hlen).
  eexists. split; [reflexivity |].
  rewrite length_map, length_combine. lia.
Qed.

Section Loop.
Variables (x y : list float) (thickness : float) (dy_dx : list float).
Let n := length dy_dx.
Hypothesis Hx : (n <= length x)%nat.
Hypothesis Hy : (n <= length y)%nat.

(** An iteration that is not the last one decides the convexity itself. *)
Lemma body_not_last (i : nat) (st : locals) :
  (i + 1 < n)%nat ->
  body x y thickness dy_dx i st =
  Ok (mk (Some (convex_at x i))
        (x_outer st ++ [fst (sample x y thickness dy_dx i)])
        (y_outer st ++ [snd (sample x y thickness dy_dx i)])).
Proof.
  intros Hi. unfold body, sample, flag_index. fold n.
  rewrite (index_ok dy_dx i NaN) by (fold n; lia).
  rewrite (index_ok x i NaN) by lia.
  rewrite (index_ok x (i + 1) NaN) by lia.
  rewrite (index_ok y i NaN) by lia.
  destruct (Nat.eqb_spec (i + 1) n) as [Heq | _]; [lia |].
  cbn [negb rbind]. unfold convex_at.
  destruct (fltb (nth i x NaN) (nth (i + 1) x NaN)); cbn [rbind];
    destruct (outer_point _ _ _ _ _); reflexivity.
Qed.

(** The last iteration takes the decision left by the one before. *)
Lemma body_last (i : nat) (st : locals) (c : bool) :
  (i + 1 = n)%nat ->
  convex st = Some c ->
  body x y thickness dy_dx i st =
  Ok (mk (Some c)
        (x_outer st ++ [fst (outer_point (nth i x NaN) (nth i y NaN) thickness
                               (normal_of_slope (nth i dy_dx NaN)) c)])
        (y_outer st ++ [snd (outer_point (nth i x NaN) (nth i y NaN) thickness
                               (normal_of_slope (nth i dy_dx NaN)) c)])).
Proof.
  intros Hi Hc. unfold body. fold n.
  rewrite (index_ok dy_dx i NaN) by (fold n; lia).
  rewrite (index_ok x i NaN) by lia.
  rewrite (index_ok y i NaN) by lia.
  destruct (Nat.eqb_spec (i + 1) n) as [_ | Hne]; [| lia].
  cbn [negb rbind]. rewrite Hc. cbn [rbind].
  destruct (outer_point _ _ _ _ _); reflexivity.
Qed.

(** With a single slope the only iteration is the last one and finds
    [convex] unbound. *)
Lemma body_last_unbound (i : nat) (st : locals) :
  (i + 1 = n)%nat ->
  convex st = None ->
  body x y thickness dy_dx i st = Raise UnboundLocalError.
Proof.
  intros Hi Hc. unfold body. fold n.
  rewrite (index_ok dy_dx i NaN) by (fold n; lia).
  destruct (Nat.eqb_spec (i + 1) n) as [_ | Hne]; [| lia].
  cbn [negb rbind]. rewrite Hc. reflexivity.
Qed.

(** The loop from index [k] on: it appends the samples [k], ..., [n-1]. *)
Lemma loop_from (m : nat) :
  forall (k : nat) (st : locals),
    (k + m = n)%nat ->
    (2 <= n)%nat ->
    (1 <= k -> convex st = Some (convex_at x (k - 1)))%nat ->
    exists st' : locals,
      for_range (seq k m) (body x y thickness dy_dx) st = Ok st'
      /\ x_outer st' =
         x_outer st ++ map (fun i => fst (sample x y thickness dy_dx i)) (seq k m)
      /\ y_outer st' =
         y_outer st ++ map (fun i => snd (sample x y thickness dy_dx i)) (seq k m).
Proof.
  induction m as [| m IH]; intros k st Hkm Hn Hc.
  - exists st. cbn. rewrite !app_nil_r. auto.
  - cbn [seq for_range map].
    destruct (Nat.eq_dec (k + 1) n) as [Hlast | Hnot].
    + assert (Hk : (1 <= k)%nat) by lia.
      rewrite (body_last k st _ Hlast (Hc Hk)). cbn [rbind].
      assert (m = 0%nat) by lia. subst m. cbn [seq for_range map].
      eexists. split; [reflexivity |].
      unfold sample, flag_index. fold n.
      rewrite (proj2 (Nat.eqb_eq _ _) Hlast). cbn [x_outer y_outer]. auto.
    + rewrite (body_not_last k st) by lia. cbn [rbind].
      destruct (IH (S k) (mk (Some (convex_at x k))
                             (x_outer st ++ [fst (sample x y thickness dy_dx k)])
                             (y_outer st ++ [snd (sample x y thickness dy_dx k)])))
        as (st' & Hrun & Hxo & Hyo).
      * lia.
      * exact Hn.
      * intros _. cbn [convex]. f_equal. f_equal. lia.
      * exists st'. split; [exact Hrun |].
        rewrite Hxo, Hyo. cbn [x_outer y_outer]. rewrite <- !app_assoc. auto.
Qed.

End Loop.

(** With at least two slopes, and samples for each of them, the call
    returns the samples [0], ..., [n-1] as computed by [sample]. *)
Lemma add_thickness_samples (x y : list float) (thickness : float)
    (dy_dx : list float) :
  (2 <= length dy_dx)%nat ->
  (length dy_dx <= length x)%nat ->
  (length dy_dx <= length y)%nat ->
  add_thickness x y thickness (Some dy_dx) =
  Ok (map (fun i => fst (sample x y thickness dy_dx i)) (seq 0 (length dy_dx)),
      map (fun i => snd (sample x y thickness dy_dx i)) (seq 0 (length dy_dx))).
Proof.
  intros Hn Hx Hy. unfold add_thickness. cbn [rbind].
  destruct (loop_from x y thickness dy_dx Hx Hy (length dy_dx) 0 (mk None [] []))
    as (st' & Hrun & Hxo & Hyo); [lia | exact Hn | lia |].
  rewrite Hrun. cbn [rbind]. rewrite Hxo, Hyo. reflexivity.
Qed.

Lemma add_thickness_derived (x y : list float) (thickness : float)
    (d : list float) :
  np_divide (np_diff y) (np_diff x) = Ok d ->
  add_thickness x y thickness None = add_thickness x y thickness (Some d).
Proof. intros Hd. unfold add_thickness. rewrite Hd. reflexivity. Qed.

Lemma nth_map_seq {A} (f : nat -> A) (n i : nat) (d : A) :
  (i < n)%nat -> nth i (map f (seq 0 n)) d = f i.
Proof.
  intros Hi.
  rewrite (nth_indep _ d (f 0%nat)) by (rewrite length_map, length_seq; exact Hi).
  rewrite map_nth, seq_nth by exact Hi. reflexivity.
Qed.

(** On lists of one length, at least 3, and slopes derived or given with
    one entry less, the call returns, and returns one sample per slope. *)
Lemma add_thickness_lengths (x y : list float) (thickness : float)
    (dy_dx : option (list float)) :
  length y = length x ->
  (3 <= length x)%nat ->
  (forall d, dy_dx = Some d -> length d = (length x - 1)%nat) ->
  exists (d xo yo : list float),
    add_thickness x y thickness dy_dx = Ok (xo, yo)
    /\ length d = (length x - 1)%nat
    /\ (dy_dx = None -> np_divide (np_diff y) (np_diff x) = Ok d)
    /\ (dy_dx <> None -> dy_dx = Some d)
    /\ xo = map (fun i => fst (sample x y thickness d i)) (seq 0 (length x - 1))
    /\ yo = map (fun i => snd (sample x y thickness d i)) (seq 0 (length x - 1))
    /\ length xo = (length x - 1)%nat
    /\ length yo = (length x - 1)%nat.
Proof.
  intros Hlen Hx Hd.
  assert (Hres : exists d, length d = (length x - 1)%nat
                   /\ add_thickness x y thickness dy_dx
                      = add_thickness x y thickness (Some d)
                   /\ (dy_dx = None -> np_divide (np_diff y) (np_diff x) = Ok d)
                   /\ (dy_dx <> None -> dy_dx = Some d)).
  { destruct dy_dx as [d |].
    - exists d. repeat split; [apply Hd; reflexivity | discriminate].
    - destruct (np_divide_same_length (np_diff y) (np_diff x)) as (q & Hq & Hql).
      { rewrite !np_diff_length. lia. }
      exists q. rewrite np_diff_length in Hql.
      repeat split;
        [lia | apply add_thickness_derived; exact Hq | intros _; exact Hq | congruence]. }
  destruct Hres as (d & Hdl & Hrun & Hnone & Hsome).
  exists d. do 2 eexists. rewrite Hrun.
  rewrite add_thickness_samples by lia. rewrite Hdl.
  split; [reflexivity |]. repeat split; try assumption.
  - rewrite length_map, length_seq. reflexivity.
  - rewrite length_map, length_seq. reflexivity.
Qed.

(** Two samples only: the single iteration is the last one, [convex] has
    not been assigned, and the call raises. *)
Lemma add_thickness_two_samples_raise (x0 x1 y0 y1 thickness : float) :
  add_thickness [x0; x1] [y0; y1] thickness None = Raise UnboundLocalError.
Proof. reflexivity. Qed.

(** C6, as the code has it.  On lists [x] and [y] of one length, at least
    3, with the slopes derived or given with [len(x) - 1] entries,
    [add_thickness] returns one displaced sample per slope, for the
    samples 0, ..., [len(x) - 2]: both returned lists have [len(x) - 1]
    entries, one less than the input lists. *)
Theorem add_thickness_one_sample_per_slope :
  forall (x y : list float) (thickness : float) (dy_dx : option (list float)),
    length y = length x ->
    (3 <= length x)%nat ->
    (forall d, dy_dx = Some d -> length d = (length x - 1)%nat) ->
    exists (d xo yo : list float),
      add_thickness x y thickness dy_dx = Ok (xo, yo)
      /\ match dy_dx with
         | Some d' => d = d'
         | None => np_divide (np_diff y) (np_diff x) = Ok d
         end
      /\ length xo = (length x - 1)%nat
      /\ length yo = (length x - 1)%nat
      /\ (forall i, (i < length x - 1)%nat ->
            (nth i xo NaN, nth i yo NaN) = sample x y thickness d i).
Proof.
  intros x y thickness dy_dx Hlen Hx Hd.
  destruct (add_thickness_lengths x y thickness dy_dx Hlen Hx Hd)
    as (d & xo & yo & Hrun & Hdl & Hnone & Hsome & Hxo & Hyo & Hlx & Hly).
  exists d, xo, yo. split; [exact Hrun |]. split.
  - destruct dy_dx as [d' |].
    + assert (Some d' = Some d) by (apply Hsome; discriminate). congruence.
    + apply Hnone. reflexivity.
  - split; [exact Hlx |]. split; [exact Hly |].
    intros i Hi. rewrite Hxo, Hyo, !nth_map_seq by exact Hi.
    destruct (sample x y thickness d i); reflexivity.
Qed.

(** C6 on three samples of a horizontal line. *)
Lemma add_thickness_one_sample_per_slope_witness :
  exists (d xo yo : list float),
    add_thickness [Fin 0; Fin 1; Fin 2] [Fin 0; Fin 0; Fin 0] (Fin 1) None
      = Ok (xo, yo)
    /\ np_divide (np_diff [Fin 0; Fin 0; Fin 0]) (np_diff [Fin 0; Fin 1; Fin 2])
       = Ok d
    /\ length xo = 2%nat
    /\ length yo = 2%nat
    /\ (forall i, (i < 2)%nat ->
          (nth i xo NaN, nth i yo NaN)
          = sample [Fin 0; Fin 1; Fin 2] [Fin 0; Fin 0; Fin 0] (Fin 1) d i).
Proof.
  apply (add_thickness_one_sample_per_slope
           [Fin 0; Fin 1; Fin 2] [Fin 0; Fin 0; Fin 0] (Fin 1) None).
  - reflexivity.
  - cbn. lia.
  - intros d Hd. discriminate.
Defined.

(** C6 as stated fails: three input samples give two output samples. *)
Lemma add_thickness_drops_last_sample :
  exists xo yo : list float,
    add_thickness [Fin 0; Fin 1; Fin 2] [Fin 0; Fin 0; Fin 0] (Fin 1) None
      = Ok (xo, yo)
    /\ length xo = 2%nat /\ length yo = 2%nat
    /\ length xo <> length [Fin 0; Fin 1; Fin 2]
    /\ length yo <> length [Fin 0; Fin 0; Fin 0].
Proof.
  destruct (add_thickness_lengths
              [Fin 0; Fin 1; Fin 2] [Fin 0; Fin 0; Fin 0] (Fin 1) None)
    as (d & xo & yo & Hrun & _ & _ & _ & _ & _ & Hlx & Hly).
  - reflexivity.
  - cbn. lia.
  - intros d Hd. discriminate.
  - exists xo, yo. cbn in Hlx, Hly. rewrite Hlx, Hly. cbn.
    repeat split; try assumption; lia.
Qed.

(** C7.  In a loop over [n >= 2] slopes, every sample but the last is
    displaced with the convexity decided at its own index, from
    [x[i] < x[i+1]]; the last one, index [n - 1], is displaced with the
    decision of index [n - 2], whatever [x[n-1] < x[n]] would give. *)
Theorem add_thickness_last_flag_carried :
  forall (x y : list float) (thickness : float)
         (dy_dx : option (list float)) (d : list float),
    match dy_dx with
    | Some d' => d = d'
    | None => np_divide (np_diff y) (np_diff x) = Ok d
    end ->
    (2 <= length d)%nat ->
    (length d <= length x)%nat ->
    (length d <= length y)%nat ->
    exists xo yo : list float,
      add_thickness x y thickness dy_dx = Ok (xo, yo)
      /\ length xo = length d /\ length yo = length d
      /\ (forall i, (i + 1 < length d)%nat ->
            (nth i xo NaN, nth i yo NaN)
            = outer_point (nth i x NaN) (nth i y NaN) thickness
                (normal_of_slope (nth i d NaN)) (convex_at x i))
      /\ (nth (length d - 1) xo NaN, nth (length d - 1) yo NaN)
         = outer_point (nth (length d - 1) x NaN) (nth (length d - 1) y NaN)
             thickness (normal_of_slope (nth (length d - 1) d NaN))
             (convex_at x (length d - 2)).
Proof.
  intros x y thickness dy_dx d Hd Hn Hx Hy.
  assert (Hrun : add_thickness x y thickness dy_dx
                 = add_thickness x y thickness (Some d)).
  { destruct dy_dx as [d' |]; [subst; reflexivity |].
    apply add_thickness_derived. exact Hd. }
  rewrite Hrun, (add_thickness_samples x y thickness d Hn Hx Hy).
  do 2 eexists. split; [reflexivity |].
  rewrite !length_map, !length_seq.
  split; [reflexivity |]. split; [reflexivity |]. split.
  - intros i Hi. rewrite !nth_map_seq by lia.
    unfold sample, flag_index.
    destruct (Nat.eqb_spec (i + 1) (length d)) as [Heq | _]; [lia |].
    destruct (outer_point _ _ _ _ _); reflexivity.
  - rewrite !nth_map_seq by lia.
    unfold sample, flag_index.
    destruct (Nat.eqb_spec (length d - 1 + 1) (length d)) as [_ | Hne]; [| lia].
    replace (length d - 1 - 1)%nat with (length d - 2)%nat by lia.
    destruct (outer_point _ _ _ _ _); reflexivity.
Qed.

(** The outer point for finite data and a finite slope [d]: the sample
    moved by [thickness] along [(-d, 1) / sqrt(d^2 + 1)], or along its
    opposite when [convex]. *)
Lemma outer_point_finite (xi yi thickness d : R) (c : bool) :
  let s := if c then -1 else 1 in
  outer_point (Fin xi) (Fin yi) (Fin thickness) (normal_of_slope (Fin d)) c
  = (Fin (xi + thickness * (- d * s / sqrt (d * d + 1))),
     Fin (yi + thickness * (1 * s / sqrt (d * d + 1)))).
Proof.
  assert (Hpos : 0 < sqrt (d * d + 1)) by (apply sqrt_lt_R0; nra).
  unfold normal_of_slope, outer_point. cbn [feqb].
  destruct c; cbn [fneg fmul fsquare fadd fsqrt].
  - replace (- d * -1 * (- d * -1) + 1 * -1 * (1 * -1)) with (d * d + 1) by ring.
    destruct (Rlt_dec (d * d + 1) 0) as [Hneg | _]; [nra |].
    unfold fdiv. destruct (Req_dec_T (sqrt (d * d + 1)) 0) as [Hz | _]; [lra |].
    reflexivity.
  - replace (- d * - d + 1 * 1) with (d * d + 1) by ring.
    destruct (Rlt_dec (d * d + 1) 0) as [Hneg | _]; [nra |].
    unfold fdiv. destruct (Req_dec_T (sqrt (d * d + 1)) 0) as [Hz | _]; [lra |].
    cbn [fmul fadd]. do 3 f_equal; field; lra.
Qed.

(** C7 on [x = [0, 1, 0]] with two slopes: the own comparison of the last
    index, [x[1] < x[2]], is false (convex), the carried decision, from
    [x[0] < x[1]], is not convex; the last sample [(1, 0)] is moved to
    [(1, 1)], as the carried decision has it. *)
Lemma add_thickness_last_flag_carried_witness :
  convex_at [Fin 0; Fin 1; Fin 0] 0 = false
  /\ convex_at [Fin 0; Fin 1; Fin 0] 1 = true
  /\ exists xo yo : list float,
       add_thickness [Fin 0; Fin 1; Fin 0] [Fin 0; Fin 0; Fin 0] (Fin 1)
         (Some [Fin 0; Fin 0]) = Ok (xo, yo)
       /\ length xo = 2%nat /\ length yo = 2%nat
       /\ (nth 1 xo NaN, nth 1 yo NaN) = (Fin 1, Fin 1).
Proof.
  assert (H0 : convex_at [Fin 0; Fin 1; Fin 0] 0 = false).
  { unfold convex_at. cbn [nth Nat.add fltb]. Rcompare; reflexivity. }
  assert (H1 : convex_at [Fin 0; Fin 1; Fin 0] 1 = true).
  { unfold convex_at. cbn [nth Nat.add fltb]. Rcompare; reflexivity. }
  split; [exact H0 |]. split; [exact H1 |].
  destruct (add_thickness_last_flag_carried
              [Fin 0; Fin 1; Fin 0] [Fin 0; Fin 0; Fin 0] (Fin 1)
              (Some [Fin 0; Fin 0]) [Fin 0; Fin 0])
    as (xo & yo & Hrun & Hlx & Hly & _ & Hlast).
  - reflexivity.
  - cbn. lia.
  - cbn. lia.
  - cbn. lia.
  - exists xo, yo. split; [exact Hrun |]. split; [exact Hlx |].
    split; [exact Hly |].
    cbn [length Nat.sub nth] in Hlast. rewrite Hlast, H0.
    rewrite (outer_point_finite 1 0 1 0 false). cbv zeta.
    rewrite Rmult_0_r, Rplus_0_l, sqrt_1. do 2 f_equal; field.
Defined.

End AddThicknessFacts.

(** * Further properties *)

(** ** The centre-column cylinder: setters and repeated derivation *)

Module CenterColumnShieldCylinderMore.
Import CenterColumnShieldCylinder.
Import CenterColumnShieldCylinderFacts.

(** X1.  A stale profile.  After a successful [find_points], storing an
    outer radius that is not larger than the inner radius succeeds
    silently, the next [find_points] raises, and the object still holds
    the four corners derived from the old outer radius. *)
Theorem stale_points_after_bad_outer_radius (self : t) (h r : R) :
  inner_radius self < outer_radius self ->
  height self = Some h ->
  r <= inner_radius self ->
  let old :=
    [ (inner_radius self, h / 2); (outer_radius self, h / 2);
      (outer_radius self, - h / 2); (inner_radius self, - h / 2) ] in
  exists s2 : t,
    (find_points ;; set_outer_radius r) self = (Ok tt, s2)
    /\ outer_radius s2 = r
    /\ find_points s2 = (Raise (ValueError_inner_larger (inner_radius self) r), s2)
    /\ points s2 = Some old.
Proof.
  intros Hlt Hh Hr old.
  unfold bind. rewrite (find_points_ok self h Hlt Hh).
  unfold set_outer_radius, modify. cbn [height inner_radius outer_radius points].
  eexists. split; [reflexivity |]. split; [reflexivity |]. split.
  - rewrite find_points_raises_inner; cbn [inner_radius outer_radius]; [reflexivity | lra].
  - reflexivity.
Qed.

Lemma stale_points_after_bad_outer_radius_witness :
  exists s2 : t,
    (find_points ;; set_outer_radius 3) (init (Some 20) 5 10) = (Ok tt, s2)
    /\ outer_radius s2 = 3
    /\ find_points s2 = (Raise (ValueError_inner_larger 5 3), s2)
    /\ points s2 = Some [(5, 20 / 2); (10, 20 / 2); (10, - (20) / 2); (5, - (20) / 2)].
Proof.
  apply (stale_points_after_bad_outer_radius (init (Some 20) 5 10) 20 3).
  - cbn. lra.
  - reflexivity.
  - cbn. lra.
Defined.

(** X2.  [find_points] is idempotent: called again on the object a
    first call has left, whether that call returned or raised, it gives
    the same outcome and leaves the object as it found it. *)
Theorem find_points_idempotent (self self' : t) (r : result unit) :
  find_points self = (r, self') ->
  find_points self' = (r, self').
Proof.
  intros Hrun.
  destruct (Rlt_dec (inner_radius self) (outer_radius self)) as [Hlt | Hge].
  - destruct (height self) as [h |] eqn:Hh.
    + rewrite (find_points_ok self h Hlt Hh) in Hrun.
      inversion Hrun; subst r self'.
      rewrite (find_points_ok _ h); cbn [inner_radius outer_radius height];
        [reflexivity | exact Hlt | reflexivity].
    + rewrite (find_points_raises_height self Hlt Hh) in Hrun.
      inversion Hrun; subst r self'.
      apply find_points_raises_height; assumption.
  - rewrite (find_points_raises_inner self) in Hrun by lra.
    inversion Hrun; subst r self'.
    apply find_points_raises_inner. lra.
Qed.

(** X2 after a call that returned (5, 10, height 20) and after a call
    that raised (5, 5). *)
Lemma find_points_idempotent_witness :
  find_points (mk (Some 20) 5 10
                 (Some [(5, 20 / 2); (10, 20 / 2); (10, - (20) / 2); (5, - (20) / 2)]))
  = (Ok tt,
     mk (Some 20) 5 10
       (Some [(5, 20 / 2); (10, 20 / 2); (10, - (20) / 2); (5, - (20) / 2)]))
  /\ find_points (init (Some 20) 5 5)
     = (Raise (ValueError_inner_larger 5 5), init (Some 20) 5 5).
Proof.
  split.
  - apply (find_points_idempotent (init (Some 20) 5 10)).
    apply find_points_ok; [cbn; lra | reflexivity].
  - apply (find_points_idempotent (init (Some 20) 5 5)).
    apply find_points_raises_inner. cbn. lra.
Defined.

(** X3.  The points of a successful call depend on the three dimensions
    only: they lie on the radii [inner_radius] and [outer_radius], at
    half the height above or below the midplane, and the profile is its
    own mirror image in the midplane. *)
Theorem find_points_profile_symmetric (self self' : t) (pts : list point)
    (h : R) :
  height self = Some h ->
  find_points self = (Ok tt, self') ->
  points self' = Some pts ->
  height self' = height self
  /\ inner_radius self' = inner_radius self
  /\ outer_radius self' = outer_radius self
  /\ length pts = 4%nat
  /\ forall p : point,
       In p pts ->
       (fst p = inner_radius self \/ fst p = outer_radius self)
       /\ inner_radius self <= fst p <= outer_radius self
       /\ Rabs (snd p) = Rabs h / 2
       /\ In (fst p, - snd p) pts.
Proof.
  intros Hh Hrun Hpts.
  destruct (Rlt_dec (inner_radius self) (outer_radius self)) as [Hlt | Hge].
  2:{ rewrite (find_points_raises_inner self) in Hrun by lra. discriminate. }
  rewrite (find_points_ok self h Hlt Hh) in Hrun.
  inversion Hrun; subst self'. cbn [height inner_radius outer_radius points] in *.
  inversion Hpts; subst pts. clear Hrun Hpts.
  repeat split; try (symmetry; assumption).
  all: destruct H as [<- | [<- | [<- | [<- | []]]]]; cbn [fst snd]; try lra.
  all: try (left; reflexivity); try (right; reflexivity).
  all: try (unfold Rabs; destruct (Rcase_abs h);
            repeat match goal with |- context [Rcase_abs ?a] => destruct (Rcase_abs a) end;
            lra).
  - right; right; right; left. f_equal. lra.
  - right; right; left. f_equal. lra.
  - right; left. f_equal. lra.
  - left. f_equal. lra.
Qed.

Lemma find_points_profile_symmetric_witness :
  let pts := [(5, 20 / 2); (10, 20 / 2); (10, - (20) / 2); (5, - (20) / 2)] in
  length pts = 4%nat
  /\ forall p : point,
       In p pts ->
       (fst p = 5 \/ fst p = 10)
       /\ 5 <= fst p <= 10
       /\ Rabs (snd p) = Rabs 20 / 2
       /\ In (fst p, - snd p) pts.
Proof.
  intros pts.
  apply (find_points_profile_symmetric (init (Some 20) 5 10)
           (mk (Some 20) 5 10 (Some pts)) pts 20).
  - reflexivity.
  - apply find_points_ok; [cbn; lra | reflexivity].
  - reflexivity.
Defined.

End CenterColumnShieldCylinderMore.

(** ** The boolean operations: lists, exceptions and the kernel log *)

Section BooleanMore.
Context {Solid : Type} `{Kernel Solid}.

Lemma for_each_app {S A B} (l1 l2 : list B) (f : A -> B -> M S A) :
  forall (a : A) (s : S),
    for_each (l1 ++ l2) f a s = (r <- for_each l1 f a ;; for_each l2 f r) s.
Proof.
  induction l1 as [| b l1 IH]; intros a s.
  - reflexivity.
  - cbn [app]. rewrite !for_each_cons. unfold bind at 1.
    rewrite for_each_cons.
    destruct (f a b s) as [[a' | e] s'].
    + rewrite IH. reflexivity.
    + reflexivity.
Qed.

(** X4.  Operands given in two lists one after the other: the call on
    the concatenation is the call on the first list followed by the call
    on the second one with the intermediate solid. *)
Theorem boolean_solid_app (op : boolop) (base : Solid)
    (l1 l2 : list (Shape.t Solid)) (log : kernel_log Solid) :
  boolean_solid op base (Several (l1 ++ l2)) log
  = (r <- boolean_solid op base (Several l1) ;;
     boolean_solid op r (Several l2)) log.
Proof.
  rewrite boolean_solid_several. unfold fold_kernel. rewrite for_each_app.
  unfold bind. rewrite boolean_solid_several. unfold fold_kernel.
  destruct (for_each l1 _ base log) as [[r | e] log']; [| reflexivity].
  rewrite boolean_solid_several. reflexivity.
Qed.

(** X5.  A shape alone and the list holding just that shape are treated
    alike: same solid or exception, same kernel call. *)
Theorem boolean_solid_one_is_singleton (op : boolop) (base : Solid)
    (c : Shape.t Solid) (log : kernel_log Solid) :
  boolean_solid op base (One c) log = boolean_solid op base (Several [c]) log.
Proof.
  rewrite boolean_solid_one, boolean_solid_several.
  unfold fold_kernel. rewrite for_each_cons.
  destruct (kernel_call op base (Shape.solid c) log) as [[a | e] log'];
    reflexivity.
Qed.

(** X6.  When the kernel raises on an operand, the exception is what the
    call returns, the failing kernel call is the last one made, and the
    operands after it never reach the kernel. *)
Theorem boolean_solid_stops_at_exception (op : boolop) (base a : Solid)
    (l1 l2 : list (Shape.t Solid)) (c : Shape.t Solid) (e : exn)
    (log log1 : kernel_log Solid) :
  boolean_solid op base (Several l1) log = (Ok a, log1) ->
  kernel op a (Shape.solid c) = Raise e ->
  boolean_solid op base (Several (l1 ++ c :: l2)) log
  = (Raise e, log1 ++ [(op, a, Shape.solid c)]).
Proof.
  intros Hl1 Hc. rewrite boolean_solid_several in *. unfold fold_kernel in *.
  rewrite for_each_app. unfold bind. rewrite Hl1, for_each_cons.
  unfold kernel_call. rewrite Hc. reflexivity.
Qed.

Lemma fold_kernel_log (op : boolop) (l : list (Shape.t Solid)) :
  forall (base : Solid) (log : kernel_log Solid),
    exists calls : kernel_log Solid,
      snd (fold_kernel op l base log) = log ++ calls
      /\ (length calls <= length l)%nat
      /\ Forall (fun call => fst (fst call) = op) calls
      /\ (forall r, fst (fold_kernel op l base log) = Ok r ->
            map snd calls = map Shape.solid l).
Proof.
  unfold fold_kernel.
  induction l as [| c l IH]; intros base log.
  - exists []. cbn. rewrite app_nil_r. repeat split; auto.
  - assert (Hstep :
      for_each (c :: l) (fun acc c => kernel_call op acc (Shape.solid c)) base log
      = match kernel op base (Shape.solid c) with
        | Ok a =>
            for_each l (fun acc c => kernel_call op acc (Shape.solid c)) a
              (log ++ [(op, base, Shape.solid c)])
        | Raise e => (Raise e, log ++ [(op, base, Shape.solid c)])
        end).
    { rewrite for_each_cons. unfold kernel_call at 1.
      destruct (kernel op base (Shape.solid c)); reflexivity. }
    rewrite Hstep. clear Hstep.
    destruct (kernel op base (Shape.solid c)) as [a | e].
    + destruct (IH a (log ++ [(op, base, Shape.solid c)]))
        as (calls & Hlog & Hlen & Hop & Hrhs).
      exists ((op, base, Shape.solid c) :: calls).
      rewrite Hlog, <- app_assoc. cbn [app length map snd].
      split; [reflexivity |]. split; [lia |].
      split; [constructor; [reflexivity | exact Hop] |].
      intros r Hr. f_equal. exact (Hrhs r Hr).
    + exists [(op, base, Shape.solid c)]. cbn [snd fst length map].
      split; [reflexivity |]. split; [lia |].
      split; [repeat constructor | discriminate].
Qed.

(** X7.  The kernel log only grows: a call appends at most one kernel
    call per operand, each of the operation asked for, and when the call
    returns, exactly one per operand, with the operands' solids on the
    right-hand side in the order of the list. *)
Theorem boolean_solid_log (op : boolop) (base : Solid)
    (l : list (Shape.t Solid)) (log : kernel_log Solid) :
  exists calls : kernel_log Solid,
    snd (boolean_solid op base (Several l) log) = log ++ calls
    /\ (length calls <= length l)%nat
    /\ Forall (fun call => fst (fst call) = op) calls
    /\ (forall r, fst (boolean_solid op base (Several l) log) = Ok r ->
          map snd calls = map Shape.solid l /\ length calls = length l).
Proof.
  rewrite boolean_solid_several.
  destruct (fold_kernel_log op l base log) as (calls & Hlog & Hlen & Hop & Hrhs).
  exists calls. split; [exact Hlog |]. split; [exact Hlen |].
  split; [exact Hop |]. intros r Hr. split.
  - exact (Hrhs r Hr).
  - rewrite <- (length_map snd calls), (Hrhs r Hr), length_map. reflexivity.
Qed.

End BooleanMore.

(** X6 on a kernel over numbers that subtracts and refuses to cut with
    0: the second operand raises, the third is never used. *)
Lemma boolean_solid_stops_at_exception_witness :
  @boolean_solid nat
    (fun _ a b => if (b =? 0)%nat then Raise KernelError else Ok (a - b)%nat)
    Cut 10%nat (Several [Shape.mk 1%nat; Shape.mk 0%nat; Shape.mk 2%nat]) []
  = (Raise KernelError, [(Cut, 10%nat, 1%nat)] ++ [(Cut, 9%nat, 0%nat)]).
Proof.
  apply (@boolean_solid_stops_at_exception nat
           (fun _ a b => if (b =? 0)%nat then Raise KernelError else Ok (a - b)%nat)
           Cut 10%nat 9%nat [Shape.mk 1%nat] [Shape.mk 2%nat] (Shape.mk 0%nat)
           KernelError [] [(Cut, 10%nat, 1%nat)]).
  - reflexivity.
  - reflexivity.
Defined.

(** ** Angles: small differences, reversal and whole turns *)

Lemma diff_between_angles_in_range (a b : R) :
  -180 < b - a <= 180 -> diff_between_angles a b = b - a.
Proof.
  intros Hr. destruct (diff_between_angles_congruent a b) as [k Hk].
  apply (half_open_turn_unique _ _ k);
    [apply diff_between_angles_range | exact Hr | exact Hk].
Qed.

(** X8.  A difference that already lies in (-180, 180] is returned as it
    is; in particular the difference of an angle with itself is 0. *)
Theorem diff_between_angles_small (a b : R) :
  -180 < b - a <= 180 ->
  diff_between_angles a b = b - a /\ diff_between_angles a a = 0.
Proof.
  intros Hr. split.
  - apply diff_between_angles_in_range. exact Hr.
  - rewrite diff_between_angles_in_range; lra.
Qed.

Lemma diff_between_angles_small_witness :
  diff_between_angles 30 (-100) = -100 - 30 /\ diff_between_angles 30 30 = 0.
Proof. apply (diff_between_angles_small 30 (-100)). lra. Defined.

(** X9.  Reversing the arguments negates the difference, except for a
    half turn: when the difference is 180 it is 180 both ways. *)
Theorem diff_between_angles_reverse (a b : R) :
  (diff_between_angles a b <> 180 ->
   diff_between_angles b a = - diff_between_angles a b)
  /\ (diff_between_angles a b = 180 -> diff_between_angles b a = 180).
Proof.
  destruct (diff_between_angles_congruent a b) as [k Hk].
  destruct (diff_between_angles_congruent b a) as [j Hj].
  pose proof (diff_between_angles_range a b) as Hab.
  pose proof (diff_between_angles_range b a) as Hba.
  split; intros Hd.
  - apply (half_open_turn_unique _ _ (j + k)); [exact Hba | lra |].
    rewrite Hj, Hk, plus_IZR. ring.
  - apply (half_open_turn_unique _ _ (j + k - 1)); [exact Hba | lra |].
    rewrite Hj, minus_IZR, plus_IZR. rewrite Hd in Hk. lra.
Qed.

Lemma diff_between_angles_reverse_witness :
  diff_between_angles 30 10 = - diff_between_angles 10 30.
Proof.
  apply (diff_between_angles_reverse 10 30).
  rewrite diff_between_angles_in_range; lra.
Defined.

(** X10.  Whole turns do not count: adding multiples of 360 to either
    angle leaves the difference unchanged. *)
Theorem diff_between_angles_periodic (a b : R) (j k : Z) :
  diff_between_angles (a + 360 * IZR j) (b + 360 * IZR k)
  = diff_between_angles a b.
Proof.
  destruct (diff_between_angles_congruent a b) as [m Hm].
  destruct (diff_between_angles_congruent (a + 360 * IZR j) (b + 360 * IZR k))
    as [n Hn].
  apply (half_open_turn_unique _ _ (n + k - j - m));
    [apply diff_between_angles_range | apply diff_between_angles_range |].
  rewrite Hn, Hm, !minus_IZR, plus_IZR. ring.
Qed.

(** ** Distances, extension and rotation *)

Lemma norm2_nonneg (u : R * R) : 0 <= norm2 u.
Proof. unfold norm2. apply sqrt_pos. Qed.

Lemma norm2_triangle (a b c d : R) :
  norm2 (a + c, b + d) <= norm2 (a, b) + norm2 (c, d).
Proof.
  pose proof (norm2_nonneg (a, b)) as Hu.
  pose proof (norm2_nonneg (c, d)) as Hv.
  pose proof (norm2_nonneg (a + c, b + d)) as Hw.
  pose proof (norm2_square (a, b)) as Hu2.
  pose proof (norm2_square (c, d)) as Hv2.
  pose proof (norm2_square (a + c, b + d)) as Hw2.
  cbn [fst snd] in *.
  set (u := norm2 (a, b)) in *. set (v := norm2 (c, d)) in *.
  set (w := norm2 (a + c, b + d)) in *.
  assert (Hcs : a * c + b * d <= u * v).
  { destruct (Rle_dec (a * c + b * d) 0) as [Hneg | Hpos].
    - pose proof (Rmult_le_pos _ _ Hu Hv). nra.
    - apply Rnot_le_lt in Hpos.
      assert (Hsq : (a * c + b * d) * (a * c + b * d) <= (u * v) * (u * v)).
      { replace (u * v * (u * v)) with ((u * u) * (v * v)) by ring.
        rewrite Hu2, Hv2.
        pose proof (Rle_0_sqr (a * d - b * c)) as Hdet. unfold Rsqr in Hdet.
        lra. }
      pose proof (Rmult_le_pos _ _ Hu Hv). nra. }
  assert (Hle : w * w <= (u + v) * (u + v)) by nra.
  nra.
Qed.

(** X11.  [distance_between_two_points] is a metric: never negative,
    zero exactly for equal points, the same in both directions, and no
    shorter through a third point. *)
Theorem distance_is_a_metric (A B C : point) :
  0 <= distance_between_two_points A B
  /\ (distance_between_two_points A B = 0 <-> A = B)
  /\ distance_between_two_points A B = distance_between_two_points B A
  /\ distance_between_two_points A C
     <= distance_between_two_points A B + distance_between_two_points B C.
Proof.
  destruct A as [xa ya], B as [xb yb], C as [xc yc].
  unfold distance_between_two_points.
  split; [apply norm2_nonneg |]. split; [| split].
  - split.
    + intros Hz.
      destruct (Req_dec_T xb xa) as [-> | Hx];
        [destruct (Req_dec_T yb ya) as [-> | Hy]; [reflexivity |] |].
      * assert (Hne : (xa - xa, yb - ya) <> (0, 0))
          by (intros He; inversion He; lra).
        pose proof (norm2_pos _ Hne). lra.
      * assert (Hne : (xb - xa, yb - ya) <> (0, 0))
          by (intros He; inversion He; lra).
        pose proof (norm2_pos _ Hne). lra.
    + intros He. inversion He. rewrite !Rminus_diag. apply norm2_zero.
  - unfold norm2. cbn [fst snd]. f_equal. ring.
  - replace (xc - xa) with ((xb - xa) + (xc - xb)) by ring.
    replace (yc - ya) with ((yb - ya) + (yc - yb)) by ring.
    apply norm2_triangle.
Qed.

(** X12.  Extending from [A] towards a different point [B] by the
    distance between them arrives at [B], and extending by 0 stays at
    [A]. *)
Theorem extend_to_the_second_point (A B : point) :
  A <> B ->
  extend A B (distance_between_two_points A B) = Ok (Fin (fst B), Fin (snd B))
  /\ extend A B 0 = Ok (Fin (fst A), Fin (snd A)).
Proof.
  intros Hne.
  assert (Hpos : 0 < distance_between_two_points A B).
  { destruct A as [xa ya], B as [xb yb]. apply norm2_pos.
    intros Hz. apply Hne. inversion Hz. f_equal; lra. }
  split.
  - destruct (extend_distinct_points A B (distance_between_two_points A B) Hne)
      as [Hrun _]. rewrite Hrun. cbn [fst snd]. do 3 f_equal; field; lra.
  - destruct (extend_distinct_points A B 0 Hne) as [Hrun _].
    rewrite Hrun. cbn [fst snd]. do 3 f_equal; field; lra.
Qed.

Lemma extend_to_the_second_point_witness :
  extend (0, 0) (3, 4) (distance_between_two_points (0, 0) (3, 4))
  = Ok (Fin 3, Fin 4)
  /\ extend (0, 0) (3, 4) 0 = Ok (Fin 0, Fin 0).
Proof.
  apply (extend_to_the_second_point (0, 0) (3, 4)).
  intros He. inversion He. lra.
Defined.

Lemma rotate_difference (o p q : point) (a : R) :
  fst (rotate o q a) - fst (rotate o p a)
  = cos a * (fst q - fst p) - sin a * (snd q - snd p)
  /\ snd (rotate o q a) - snd (rotate o p a)
     = sin a * (fst q - fst p) + cos a * (snd q - snd p).
Proof.
  destruct o as [ox oy], p as [px py], q as [qx qy].
  unfold rotate. cbn [fst snd]. split; ring.
Qed.

(** X13.  [rotate] keeps distances: two points rotated about the same
    origin by the same angle are as far apart as before, and each stays
    at its distance from the origin. *)
Theorem rotate_keeps_distances (o p q : point) (a : R) :
  distance_between_two_points (rotate o p a) (rotate o q a)
  = distance_between_two_points p q
  /\ distance_between_two_points o (rotate o p a)
     = distance_between_two_points o p.
Proof.
  assert (Hiso : forall p q,
             distance_between_two_points (rotate o p a) (rotate o q a)
             = distance_between_two_points p q).
  { intros p' q'. destruct (rotate_difference o p' q' a) as [Hx Hy].
    destruct (rotate o p' a) as [px' py'] eqn:Hp.
    destruct (rotate o q' a) as [qx' qy'] eqn:Hq.
    destruct p' as [px py], q' as [qx qy].
    unfold distance_between_two_points, norm2. cbn [fst snd] in *.
    f_equal. rewrite Hx, Hy.
    pose proof (sin2_cos2 a) as Hsc. unfold Rsqr in Hsc.
    transitivity (((qx - px) * (qx - px) + (qy - py) * (qy - py))
                  * (sin a * sin a + cos a * cos a)); [ring |].
    rewrite Hsc. ring. }
  split; [apply Hiso |].
  assert (Ho : rotate o o a = o).
  { destruct o as [ox oy]. unfold rotate. f_equal; ring. }
  rewrite <- Ho at 1. apply Hiso.
Qed.

(** X14.  Rotations about one origin compose by adding the angles; the
    angle 0 and a full turn change nothing, the opposite angle undoes a
    rotation, and the origin is a fixed point. *)
Theorem rotate_composes (o p : point) (a b : R) :
  rotate o (rotate o p a) b = rotate o p (a + b)
  /\ rotate o p 0 = p
  /\ rotate o p (2 * PI) = p
  /\ rotate o (rotate o p a) (- a) = p
  /\ rotate o o a = o.
Proof.
  assert (Hcomp : forall a b, rotate o (rotate o p a) b = rotate o p (a + b)).
  { intros a' b'. destruct o as [ox oy], p as [px py]. unfold rotate.
    rewrite cos_plus, sin_plus. f_equal; ring. }
  assert (Hzero : rotate o p 0 = p).
  { destruct o as [ox oy], p as [px py]. unfold rotate.
    rewrite cos_0, sin_0. f_equal; ring. }
  split; [apply Hcomp |]. split; [exact Hzero |]. split; [| split].
  - destruct o as [ox oy], p as [px py]. unfold rotate.
    rewrite cos_2PI, sin_2PI. f_equal; ring.
  - rewrite Hcomp, Rplus_opp_r. exact Hzero.
  - destruct o as [ox oy]. unfold rotate. f_equal; ring.
Qed.

(** ** The circle through three points: uniqueness, order, small triangles *)

Lemma equidistant_squares (c p q : point) :
  distance_between_two_points c p = distance_between_two_points c q ->
  (fst p - fst c) * (fst p - fst c) + (snd p - snd c) * (snd p - snd c)
  = (fst q - fst c) * (fst q - fst c) + (snd q - snd c) * (snd q - snd c).
Proof.
  destruct c as [cx cy], p as [px py], q as [qx qy].
  unfold distance_between_two_points. cbn [fst snd]. intros Heq.
  pose proof (norm2_square (px - cx, py - cy)) as Hp.
  pose proof (norm2_square (qx - cx, qy - cy)) as Hq.
  cbn [fst snd] in *. rewrite <- Hp, <- Hq, Heq. reflexivity.
Qed.

Lemma circumcentre_unique (p1 p2 p3 c c' : point) :
  circle_det p1 p2 p3 <> 0 ->
  distance_between_two_points c p1 = distance_between_two_points c p2 ->
  distance_between_two_points c p2 = distance_between_two_points c p3 ->
  distance_between_two_points c' p1 = distance_between_two_points c' p2 ->
  distance_between_two_points c' p2 = distance_between_two_points c' p3 ->
  c' = c.
Proof.
  intros Hdet H12 H23 H12' H23'.
  apply equidistant_squares in H12, H23, H12', H23'.
  destruct p1 as [x1 y1], p2 as [x2 y2], p3 as [x3 y3].
  destruct c as [cx cy], c' as [cx' cy'].
  unfold circle_det in Hdet. cbn [fst snd] in *.
  set (u := cx' - cx). set (v := cy' - cy).
  assert (E1 : u * (x1 - x2) + v * (y1 - y2) = 0) by (unfold u, v; lra).
  assert (E2 : u * (x2 - x3) + v * (y2 - y3) = 0) by (unfold u, v; lra).
  assert (Hu : u * ((x1 - x2) * (y2 - y3) - (x2 - x3) * (y1 - y2)) = 0).
  { transitivity ((y2 - y3) * (u * (x1 - x2) + v * (y1 - y2))
                  - (y1 - y2) * (u * (x2 - x3) + v * (y2 - y3))); [ring |].
    rewrite E1, E2. ring. }
  assert (Hv : v * ((x1 - x2) * (y2 - y3) - (x2 - x3) * (y1 - y2)) = 0).
  { transitivity ((x1 - x2) * (u * (x2 - x3) + v * (y2 - y3))
                  - (x2 - x3) * (u * (x1 - x2) + v * (y1 - y2))); [ring |].
    rewrite E1, E2. ring. }
  apply Rmult_integral in Hu, Hv.
  destruct Hu as [Hu | Hu]; [| contradiction].
  destruct Hv as [Hv | Hv]; [| contradiction].
  unfold u, v in *. f_equal; lra.
Qed.

Lemma threshold_nonzero (p1 p2 p3 : point) :
  ~ Rabs (circle_det p1 p2 p3) < 1.0e-6 -> circle_det p1 p2 p3 <> 0.
Proof. intros Hdet Hz. apply Hdet. rewrite Hz, Rabs_R0. lra. Qed.

(** X15.  When a circle is returned, its centre is the only point at one
    distance from the three points. *)
Theorem find_center_is_the_circumcentre (p1 p2 p3 c c' : point) (r : float) :
  find_center_point_of_circle p1 p2 p3 = Ok (Some c, r) ->
  distance_between_two_points c' p1 = distance_between_two_points c' p2 ->
  distance_between_two_points c' p2 = distance_between_two_points c' p3 ->
  c' = c.
Proof.
  intros Hrun H12 H23.
  destruct (Rlt_dec (Rabs (circle_det p1 p2 p3)) 1.0e-6) as [Hlt | Hge].
  - rewrite (find_center_degenerate p1 p2 p3 Hlt) in Hrun. discriminate.
  - destruct (find_center_circle p1 p2 p3 Hge) as (c0 & r0 & Hrun0 & D1 & D2 & D3).
    rewrite Hrun0 in Hrun. inversion Hrun; subst c0.
    apply (circumcentre_unique p1 p2 p3); try assumption.
    + apply threshold_nonzero. exact Hge.
    + congruence.
    + congruence.
Qed.

Lemma find_center_right_triangle :
  find_center_point_of_circle (0, 0) (2, 0) (0, 2)
  = Ok (Some (1, 1), Fin (sqrt 2)).
Proof.
  unfold find_center_point_of_circle, circle_det. cbv zeta. cbn [fst snd].
  replace ((0 - 2) * (0 - 2) - (2 - 0) * (0 - 0)) with 4 by ring.
  rewrite (Rabs_pos_eq 4) by lra.
  destruct (Rltb_spec 4 1.0e-6); [lra |].
  do 3 f_equal; [f_equal; field | f_equal; field].
Qed.

(** X15 on the right triangle (0,0), (2,0), (0,2): a point at one
    distance from the three corners is the returned centre (1,1). *)
Lemma find_center_is_the_circumcentre_witness :
  find_center_point_of_circle (0, 0) (2, 0) (0, 2)
  = Ok (Some (1, 1), Fin (sqrt 2))
  /\ forall c' : point,
       distance_between_two_points c' (0, 0) = distance_between_two_points c' (2, 0) ->
       distance_between_two_points c' (2, 0) = distance_between_two_points c' (0, 2) ->
       c' = (1, 1).
Proof.
  split; [exact find_center_right_triangle |].
  intros c'.
  apply (find_center_is_the_circumcentre (0, 0) (2, 0) (0, 2) (1, 1) c'
           (Fin (sqrt 2))).
  exact find_center_right_triangle.
Defined.

Lemma find_center_reordered (p1 p2 p3 q1 q2 q3 : point) :
  circle_det q1 q2 q3 = - circle_det p1 p2 p3 ->
  incl [p1; p2; p3] [q1; q2; q3] ->
  find_center_point_of_circle q1 q2 q3 = find_center_point_of_circle p1 p2 p3.
Proof.
  intros Hdet Hincl.
  assert (Habs : Rabs (circle_det q1 q2 q3) = Rabs (circle_det p1 p2 p3))
    by (rewrite Hdet; apply Rabs_Ropp).
  destruct (Rlt_dec (Rabs (circle_det p1 p2 p3)) 1.0e-6) as [Hlt | Hge].
  - rewrite (find_center_degenerate p1 p2 p3 Hlt).
    apply find_center_degenerate. rewrite Habs. exact Hlt.
  - destruct (find_center_circle p1 p2 p3 Hge) as (c & r & Hp & D1 & D2 & D3).
    assert (Hge' : ~ Rabs (circle_det q1 q2 q3) < 1.0e-6) by (rewrite Habs; exact Hge).
    destruct (find_center_circle q1 q2 q3 Hge') as (c' & r' & Hq & E1 & E2 & E3).
    assert (Hall : forall p, In p [p1; p2; p3] ->
                             distance_between_two_points c' p = r').
    { intros p Hin. apply Hincl in Hin.
      destruct Hin as [<- | [<- | [<- | []]]]; assumption. }
    assert (Hc : c' = c).
    { apply (circumcentre_unique p1 p2 p3).
      - apply threshold_nonzero. exact Hge.
      - congruence.
      - congruence.
      - rewrite (Hall p1), (Hall p2); cbn; auto.
      - rewrite (Hall p2), (Hall p3); cbn; auto. }
    assert (Hr : r' = r).
    { rewrite <- (Hall p1) by (cbn; auto). rewrite Hc. exact D1. }
    rewrite Hp, Hq, Hc, Hr. reflexivity.
Qed.

Lemma circle_det_swap (p1 p2 p3 : point) :
  circle_det p2 p1 p3 = - circle_det p1 p2 p3
  /\ circle_det p1 p3 p2 = - circle_det p1 p2 p3.
Proof.
  destruct p1 as [x1 y1], p2 as [x2 y2], p3 as [x3 y3].
  unfold circle_det. cbn [fst snd]. split; ring.
Qed.

(** X16.  The order of the three points does not matter: the result,
    degenerate or not, is the same for all six orders. *)
Theorem find_center_any_order (p1 p2 p3 : point) :
  let r := find_center_point_of_circle p1 p2 p3 in
  find_center_point_of_circle p2 p1 p3 = r
  /\ find_center_point_of_circle p1 p3 p2 = r
  /\ find_center_point_of_circle p3 p2 p1 = r
  /\ find_center_point_of_circle p2 p3 p1 = r
  /\ find_center_point_of_circle p3 p1 p2 = r.
Proof.
  assert (S12 : forall a b c,
             find_center_point_of_circle b a c = find_center_point_of_circle a b c).
  { intros a b c. apply find_center_reordered.
    - apply circle_det_swap.
    - intros p Hp. cbn in *. tauto. }
  assert (S23 : forall a b c,
             find_center_point_of_circle a c b = find_center_point_of_circle a b c).
  { intros a b c. apply find_center_reordered.
    - apply circle_det_swap.
    - intros p Hp. cbn in *. tauto. }
  cbv zeta. repeat split.
  - apply S12.
  - apply S23.
  - rewrite S12, S23, S12. reflexivity.
  - rewrite S23, S12. reflexivity.
  - rewrite S12, S23. reflexivity.
Qed.

(** X17.  Points exactly on one line, and so also two equal points, give
    the degenerate result. *)
Theorem find_center_collinear (p1 p2 p3 : point) (t : R) :
  fst p3 = fst p1 + t * (fst p2 - fst p1) ->
  snd p3 = snd p1 + t * (snd p2 - snd p1) ->
  find_center_point_of_circle p1 p2 p3 = Ok (None, PInf)
  /\ find_center_point_of_circle p1 p1 p2 = Ok (None, PInf)
  /\ find_center_point_of_circle p1 p2 p1 = Ok (None, PInf)
  /\ find_center_point_of_circle p1 p2 p2 = Ok (None, PInf).
Proof.
  intros Hx Hy.
  assert (Hzero : forall a b c, circle_det a b c = 0 ->
                                find_center_point_of_circle a b c = Ok (None, PInf)).
  { intros a b c Hz. apply find_center_degenerate. rewrite Hz, Rabs_R0. lra. }
  destruct p1 as [x1 y1], p2 as [x2 y2], p3 as [x3 y3]. cbn [fst snd] in *.
  repeat split; apply Hzero; unfold circle_det; cbn [fst snd]; subst; ring.
Qed.

Lemma find_center_collinear_witness :
  find_center_point_of_circle (0, 0) (1, 2) (3, 6) = Ok (None, PInf)
  /\ find_center_point_of_circle (0, 0) (0, 0) (1, 2) = Ok (None, PInf)
  /\ find_center_point_of_circle (0, 0) (1, 2) (0, 0) = Ok (None, PInf)
  /\ find_center_point_of_circle (0, 0) (1, 2) (1, 2) = Ok (None, PInf).
Proof.
  apply (find_center_collinear (0, 0) (1, 2) (3, 6) 3); cbn [fst snd]; lra.
Defined.

(** X18.  The threshold is absolute: three points whose coordinates
    differ by at most [s], with [2 s^2 < 1e-6], give the degenerate
    result even when they are the corners of a proper triangle. *)
Theorem find_center_small_triangle (p1 p2 p3 : point) (s : R) :
  2 * s * s < 1.0e-6 ->
  Rabs (fst p1 - fst p2) <= s -> Rabs (fst p2 - fst p3) <= s ->
  Rabs (snd p1 - snd p2) <= s -> Rabs (snd p2 - snd p3) <= s ->
  find_center_point_of_circle p1 p2 p3 = Ok (None, PInf).
Proof.
  intros Hs Hx12 Hx23 Hy12 Hy23.
  apply find_center_degenerate. unfold circle_det.
  set (a := fst p1 - fst p2) in *. set (b := snd p2 - snd p3) in *.
  set (c := fst p2 - fst p3) in *. set (d := snd p1 - snd p2) in *.
  pose proof (Rabs_pos a). pose proof (Rabs_pos b).
  pose proof (Rabs_pos c). pose proof (Rabs_pos d).
  assert (Hab : Rabs (a * b) <= s * s)
    by (rewrite Rabs_mult; apply Rmult_le_compat; assumption).
  assert (Hcd : Rabs (c * d) <= s * s)
    by (rewrite Rabs_mult; apply Rmult_le_compat; assumption).
  pose proof (Rabs_triang (a * b) (- (c * d))) as Htri.
  rewrite Rabs_Ropp in Htri.
  replace (a * b - c * d) with (a * b + - (c * d)) by ring. lra.
Qed.

(** X18 on the right triangle with legs 0.0005. *)
Lemma find_center_small_triangle_witness :
  find_center_point_of_circle (0, 0) (0.0005, 0) (0, 0.0005) = Ok (None, PInf).
Proof.
  apply (find_center_small_triangle (0, 0) (0.0005, 0) (0, 0.0005) 0.0005);
    cbn [fst snd].
  - lra.
  - rewrite Rabs_left; lra.
  - rewrite Rabs_pos_eq; lra.
  - rewrite Rabs_pos_eq; lra.
  - rewrite Rabs_left; lra.
Defined.

(** ** The line through two points *)

Lemma pow2_zero (x : R) : x ^ 2 = 0 -> x = 0.
Proof. intros Hx. apply Rsqr_0_uniq. rewrite Rsqr_pow2. exact Hx. Qed.

Lemma residual_two_rows (x1 y1 x2 y2 m c : R) :
  residual (design_matrix [x1; x2]) [y1; y2] (m, c)
  = (x1 * m + 1 * c - y1) ^ 2 + ((x2 * m + 1 * c - y2) ^ 2 + 0).
Proof. reflexivity. Qed.

Lemma line_fit_distinct (x1 y1 x2 y2 m c : R) :
  x1 <> x2 ->
  least_squares (design_matrix [x1; x2]) [y1; y2] (m, c) ->
  m = (y2 - y1) / (x2 - x1) /\ c = y1 - m * x1.
Proof.
  intros Hx [Hmin _].
  set (m0 := (y2 - y1) / (x2 - x1)).
  specialize (Hmin (m0, y1 - m0 * x1)).
  rewrite !residual_two_rows in Hmin.
  assert (E1 : x1 * m0 + 1 * (y1 - m0 * x1) - y1 = 0) by ring.
  assert (E2 : x2 * m0 + 1 * (y1 - m0 * x1) - y2 = 0)
    by (unfold m0; field; lra).
  rewrite E1, E2 in Hmin.
  pose proof (pow2_ge_0 (x1 * m + 1 * c - y1)) as P1.
  pose proof (pow2_ge_0 (x2 * m + 1 * c - y2)) as P2.
  assert (Z1 : (x1 * m + 1 * c - y1) ^ 2 = 0) by lra.
  assert (Z2 : (x2 * m + 1 * c - y2) ^ 2 = 0) by lra.
  apply pow2_zero in Z1. apply pow2_zero in Z2.
  assert (Hm : m * (x2 - x1) = y2 - y1) by lra.
  assert (m = m0) by (unfold m0; field_simplify_eq; lra).
  split; [assumption | lra].
Qed.

(** X19.  With NumPy's least-squares solver, two points of different
    abscissa give the slope and the intercept of the line through both:
    [m = (y2 - y1) / (x2 - x1)] and [c = y1 - m x1]. *)
Theorem coefficients_of_line_through_points (L : Lstsq) (point1 point2 : point) :
  least_squares (design_matrix [fst point1; fst point2])
    [snd point1; snd point2]
    (lstsq (design_matrix [fst point1; fst point2]) [snd point1; snd point2]) ->
  fst point1 <> fst point2 ->
  exists m c : R,
    coefficients_of_line_from_points point1 point2 = (m, c)
    /\ m = (snd point2 - snd point1) / (fst point2 - fst point1)
    /\ snd point1 = m * fst point1 + c
    /\ snd point2 = m * fst point2 + c.
Proof.
  intros Hls Hx. unfold coefficients_of_line_from_points. cbn [map].
  destruct (lstsq _ _) as [m c]. exists m, c. split; [reflexivity |].
  destruct (line_fit_distinct _ _ _ _ m c Hx Hls) as [Hm Hc].
  split; [exact Hm |]. split; [lra |].
  rewrite Hc. rewrite Hm. field. lra.
Qed.

(** X19 for a solver that answers (2, 0), on the points (0,0) and (2,4):
    that answer is the least-squares solution, and it is what is
    returned. *)
Lemma coefficients_of_line_through_points_witness :
  exists m c : R,
    @coefficients_of_line_from_points (fun _ _ => (2, 0)) (0, 0) (2, 4) = (m, c)
    /\ m = (4 - 0) / (2 - 0)
    /\ 0 = m * 0 + c
    /\ 4 = m * 2 + c.
Proof.
  apply (coefficients_of_line_through_points (fun _ _ => (2, 0)) (0, 0) (2, 4)).
  - unfold lstsq. cbn [fst snd]. split.
    + intros [m c]. rewrite !residual_two_rows.
      pose proof (pow2_ge_0 (0 * m + 1 * c - 0)).
      pose proof (pow2_ge_0 (2 * m + 1 * c - 4)). lra.
    + intros [m c]. rewrite !residual_two_rows. cbn [fst snd]. intros Hres.
      pose proof (pow2_ge_0 (0 * m + 1 * c - 0)) as P1.
      pose proof (pow2_ge_0 (2 * m + 1 * c - 4)) as P2.
      assert (Z1 : (0 * m + 1 * c - 0) ^ 2 = 0) by lra.
      assert (Z2 : (2 * m + 1 * c - 4) ^ 2 = 0) by lra.
      apply pow2_zero in Z1. apply pow2_zero in Z2.
      assert (c = 0) by lra. assert (m = 2) by lra. subst. lra.
  - cbn [fst]. lra.
Defined.

Lemma line_fit_vertical (x y1 y2 m c : R) :
  least_squares (design_matrix [x; x]) [y1; y2] (m, c) ->
  x * m + c = (y1 + y2) / 2
  /\ m = x * c
  /\ c = (y1 + y2) / 2 / (x * x + 1).
Proof.
  intros [Hmin Hnorm].
  assert (Hpos : 0 < x * x + 1) by nra.
  set (k := (y1 + y2) / 2).
  set (c0 := k / (x * x + 1)).
  assert (Ht0 : x * (x * c0) + 1 * c0 = k) by (unfold c0; field; lra).
  specialize (Hmin (x * c0, c0)). specialize (Hnorm (x * c0, c0)).
  rewrite !residual_two_rows in *. cbn [fst snd] in Hnorm.
  rewrite Ht0 in *.
  set (t := x * m + 1 * c) in *.
  assert (Hexp : (t - y1) ^ 2 + ((t - y2) ^ 2 + 0)
                 = (k - y1) ^ 2 + ((k - y2) ^ 2 + 0) + 2 * (t - k) ^ 2)
    by (unfold k; field).
  pose proof (pow2_ge_0 (t - k)) as Hsq.
  assert (Htk : (t - k) ^ 2 = 0) by lra.
  apply pow2_zero in Htk.
  assert (Ht : t = k) by lra.
  assert (Hn : m ^ 2 + c ^ 2 <= (x * c0) ^ 2 + c0 ^ 2).
  { apply Hnorm. rewrite Ht. reflexivity. }
  assert (Hc0 : ((x * c0) ^ 2 + c0 ^ 2) * (x * x + 1) = k ^ 2)
    by (unfold c0; field; lra).
  assert (Hid : (m ^ 2 + c ^ 2) * (x * x + 1) = t ^ 2 + (m - x * c) ^ 2)
    by (unfold t; ring).
  assert (Hle : (m ^ 2 + c ^ 2) * (x * x + 1) <= k ^ 2).
  { rewrite <- Hc0. apply Rmult_le_compat_r; lra. }
  pose proof (pow2_ge_0 (m - x * c)) as Hsq2.
  assert (Hmc : (m - x * c) ^ 2 = 0) by (rewrite Ht in Hid; lra).
  apply pow2_zero in Hmc.
  assert (Hm : m = x * c) by lra.
  split; [unfold t in Ht; lra |]. split; [exact Hm |].
  assert (Hck : c * (x * x + 1) = k) by (unfold t in Ht; rewrite Hm in Ht; lra).
  assert (Hc : c = k / (x * x + 1)) by (rewrite <- Hck; field; lra).
  exact Hc.
Qed.

(** X20.  With NumPy's least-squares solver, two points of one abscissa
    [x] give neither an exception nor an infinite slope: the result is the
    finite pair of smallest norm with [m x + c] the mean of the two
    ordinates, that is [c = mean / (x^2 + 1)] and [m = x c]. *)
Theorem coefficients_of_vertical_pair (L : Lstsq) (x y1 y2 : R) :
  least_squares (design_matrix [x; x]) [y1; y2]
    (lstsq (design_matrix [x; x]) [y1; y2]) ->
  exists m c : R,
    coefficients_of_line_from_points (x, y1) (x, y2) = (m, c)
    /\ m * x + c = (y1 + y2) / 2
    /\ c = (y1 + y2) / 2 / (x * x + 1)
    /\ m = x * c.
Proof.
  intros Hls. unfold coefficients_of_line_from_points. cbn [map fst snd].
  destruct (lstsq _ _) as [m c]. exists m, c. split; [reflexivity |].
  destruct (line_fit_vertical x y1 y2 m c Hls) as (Ht & Hm & Hc).
  split; [lra |]. split; assumption.
Qed.

(** X20 for a solver that answers (1/2, 1/2), on the points (1,0) and
    (1,2): that answer is the least-squares solution of smallest norm. *)
Lemma coefficients_of_vertical_pair_witness :
  exists m c : R,
    @coefficients_of_line_from_points (fun _ _ => (1 / 2, 1 / 2)) (1, 0) (1, 2)
    = (m, c)
    /\ m * 1 + c = (0 + 2) / 2
    /\ c = (0 + 2) / 2 / (1 * 1 + 1)
    /\ m = 1 * c.
Proof.
  apply (coefficients_of_vertical_pair (fun _ _ => (1 / 2, 1 / 2)) 1 0 2).
  unfold lstsq. split.
  - intros [m c]. rewrite !residual_two_rows.
    replace ((1 * (1 / 2) + 1 * (1 / 2) - 0) ^ 2
             + ((1 * (1 / 2) + 1 * (1 / 2) - 2) ^ 2 + 0)) with 2 by field.
    pose proof (pow2_ge_0 (1 * m + 1 * c - 1)) as P.
    replace ((1 * m + 1 * c - 0) ^ 2 + ((1 * m + 1 * c - 2) ^ 2 + 0))
      with (2 + 2 * (1 * m + 1 * c - 1) ^ 2) by ring.
    lra.
  - intros [m c]. rewrite !residual_two_rows. cbn [fst snd].
    replace ((1 * (1 / 2) + 1 * (1 / 2) - 0) ^ 2
             + ((1 * (1 / 2) + 1 * (1 / 2) - 2) ^ 2 + 0)) with 2 by field.
    replace ((1 * m + 1 * c - 0) ^ 2 + ((1 * m + 1 * c - 2) ^ 2 + 0))
      with (2 + 2 * (1 * m + 1 * c - 1) ^ 2) by ring.
    intros Hres.
    assert (Z : (1 * m + 1 * c - 1) ^ 2 = 0) by lra.
    apply pow2_zero in Z.
    assert (Hc : c = 1 - m) by lra. subst c.
    pose proof (pow2_ge_0 (m - 1 / 2)) as P.
    replace (m ^ 2 + (1 - m) ^ 2) with (1 / 2 + 2 * (m - 1 / 2) ^ 2) by field.
    replace ((1 / 2) ^ 2 + (1 / 2) ^ 2) with (1 / 2) by field.
    lra.
Defined.

(** ** The selectors: tolerance, concatenation, printing *)

Section SelectorsMore.
Context {Face : Type} `{HasArea Face} {Edge : Type} `{HasLength Edge}.

Lemma select_by_measure_nil {F} (m : F -> R) (l : list F) (target tol : R) :
  (forall f, In f l -> ~ (target - tol < m f < target + tol)) ->
  select_by_measure m l target tol = [].
Proof.
  intros Hno.
  destruct (select_by_measure m l target tol) as [| f sel] eqn:Hsel;
    [reflexivity |].
  assert (Hin : In f (select_by_measure m l target tol))
    by (rewrite Hsel; left; reflexivity).
  apply select_by_measure_In in Hin. destruct Hin as [Hin Hm].
  exfalso. exact (Hno f Hin Hm).
Qed.

Lemma filter_idempotent {A} (p : A -> bool) (l : list A) :
  List.filter p (List.filter p l) = List.filter p l.
Proof.
  induction l as [| a l IH]; [reflexivity |]. cbn [List.filter].
  destruct (p a) eqn:Hp; [| exact IH].
  cbn [List.filter]. rewrite Hp, IH. reflexivity.
Qed.

(** X21.  A tolerance of zero, or a negative one, selects nothing, not
    even a feature whose measure is exactly the target: both selectors
    return the empty list. *)
Theorem selectors_need_positive_tolerance (target tol : R)
    (faces : list Face) (edges : list Edge) (out : list output) :
  tol <= 0 ->
  FaceAreaSelector.filter (FaceAreaSelector.mk target tol) faces = Ok []
  /\ fst (EdgeLengthSelector.filter (EdgeLengthSelector.mk target tol) edges out)
     = Ok [].
Proof.
  intros Htol. split.
  - rewrite face_filter_select. f_equal. apply select_by_measure_nil.
    cbn [FaceAreaSelector.area FaceAreaSelector.tol]. intros f _. lra.
  - rewrite edge_filter_select. cbn [fst]. f_equal. apply select_by_measure_nil.
    cbn [EdgeLengthSelector.length EdgeLengthSelector.tol]. intros e _. lra.
Qed.

(** X22.  A larger tolerance selects at least the same features, and
    with a positive tolerance every feature whose measure is exactly the
    target is selected. *)
Theorem selectors_monotone_in_tolerance (target tol1 tol2 : R)
    (faces : list Face) (edges : list Edge) (out : list output) :
  tol1 <= tol2 ->
  exists (f1 f2 : list Face) (e1 e2 : list Edge),
    FaceAreaSelector.filter (FaceAreaSelector.mk target tol1) faces = Ok f1
    /\ FaceAreaSelector.filter (FaceAreaSelector.mk target tol2) faces = Ok f2
    /\ fst (EdgeLengthSelector.filter (EdgeLengthSelector.mk target tol1) edges out)
       = Ok e1
    /\ fst (EdgeLengthSelector.filter (EdgeLengthSelector.mk target tol2) edges out)
       = Ok e2
    /\ incl f1 f2 /\ incl e1 e2
    /\ (0 < tol2 ->
        (forall f, In f faces -> Area f = target -> In f f2)
        /\ (forall e, In e edges -> Length e = target -> In e e2)).
Proof.
  intros Htol. do 4 eexists.
  rewrite !face_filter_select, !edge_filter_select. cbn [fst].
  cbn [FaceAreaSelector.area FaceAreaSelector.tol
       EdgeLengthSelector.length EdgeLengthSelector.tol].
  do 4 (split; [reflexivity |]).
  split; [| split; [| split]].
  - intros f Hf. apply select_by_measure_In in Hf. apply select_by_measure_In.
    split; [tauto | lra].
  - intros e He. apply select_by_measure_In in He. apply select_by_measure_In.
    split; [tauto | lra].
  - intros f Hin Hm. apply select_by_measure_In. split; [exact Hin | lra].
  - intros e Hin Hm. apply select_by_measure_In. split; [exact Hin | lra].
Qed.

(** X23.  Selecting from two lists put end to end gives the two
    selections put end to end, and selecting again from a selection
    returns it unchanged. *)
Theorem selectors_concatenate (fs : FaceAreaSelector.t) (es : EdgeLengthSelector.t)
    (faces1 faces2 : list Face) (edges1 edges2 : list Edge)
    (out : list output) :
  exists (f1 f2 : list Face) (e1 e2 : list Edge),
    FaceAreaSelector.filter fs faces1 = Ok f1
    /\ FaceAreaSelector.filter fs faces2 = Ok f2
    /\ FaceAreaSelector.filter fs (faces1 ++ faces2) = Ok (f1 ++ f2)
    /\ FaceAreaSelector.filter fs f1 = Ok f1
    /\ fst (EdgeLengthSelector.filter es edges1 out) = Ok e1
    /\ fst (EdgeLengthSelector.filter es edges2 out) = Ok e2
    /\ fst (EdgeLengthSelector.filter es (edges1 ++ edges2) out) = Ok (e1 ++ e2)
    /\ fst (EdgeLengthSelector.filter es e1 out) = Ok e1.
Proof.
  do 4 eexists. rewrite !face_filter_select, !edge_filter_select. cbn [fst].
  unfold select_by_measure.
  repeat split; f_equal;
    first [apply filter_app | apply filter_idempotent].
Qed.

(** X24.  [EdgeLengthSelector.filter] prints two lines after what was
    printed before, the second one with the number of edges it returns,
    which is at most the number of edges it was given. *)
Theorem edge_filter_prints_its_count (es : EdgeLengthSelector.t)
    (edges : list Edge) (out : list output) :
  exists sel : list Edge,
    EdgeLengthSelector.filter es edges out
    = (Ok sel, out ++ [Print_filleting_edge; Print_length (length sel)])
    /\ (length sel <= length edges)%nat.
Proof.
  eexists. rewrite edge_filter_select. split; [reflexivity |].
  unfold select_by_measure. apply filter_length_le.
Qed.

End SelectorsMore.

(** X21 on a face of area exactly the target 0.5, with tolerance 0. *)
Lemma selectors_need_positive_tolerance_witness :
  @FaceAreaSelector.filter R (fun a => a) (FaceAreaSelector.mk 0.5 0) [0.5]
  = Ok []
  /\ fst (@EdgeLengthSelector.filter R (fun l => l)
            (EdgeLengthSelector.mk 0.5 0) [0.5] [])
     = Ok [].
Proof.
  apply (@selectors_need_positive_tolerance R (fun a => a) R (fun l => l)
           0.5 0 [0.5] [0.5] []).
  lra.
Defined.

(** X22 with tolerances 0.1 and 0.2 around 1. *)
Lemma selectors_monotone_in_tolerance_witness :
  exists (f1 f2 : list R) (e1 e2 : list R),
    @FaceAreaSelector.filter R (fun a => a) (FaceAreaSelector.mk 1 0.1) [1; 1.15]
    = Ok f1
    /\ @FaceAreaSelector.filter R (fun a => a) (FaceAreaSelector.mk 1 0.2) [1; 1.15]
       = Ok f2
    /\ fst (@EdgeLengthSelector.filter R (fun l => l)
              (EdgeLengthSelector.mk 1 0.1) [1; 1.15] []) = Ok e1
    /\ fst (@EdgeLengthSelector.filter R (fun l => l)
              (EdgeLengthSelector.mk 1 0.2) [1; 1.15] []) = Ok e2
    /\ incl f1 f2 /\ incl e1 e2
    /\ (0 < 0.2 ->
        (forall f, In f [1; 1.15] -> f = 1 -> In f f2)
        /\ (forall e, In e [1; 1.15] -> e = 1 -> In e e2)).
Proof.
  apply (@selectors_monotone_in_tolerance R (fun a => a) R (fun l => l)
           1 0.1 0.2 [1; 1.15] [1; 1.15] []).
  lra.
Defined.

(** ** The offset curve: short inputs, bounds and the unit normal *)

Module AddThicknessMore.
Import AddThickness.
Import AddThicknessFacts.

(** X25.  Short inputs.  With exactly one slope, whatever the samples,
    the single iteration is the last one and finds [convex] unassigned:
    the call raises [UnboundLocalError]; this is the case of two samples
    with derived slopes.  With no slope at all, given or derived from at
    most one sample, the call returns two empty lists. *)
Theorem add_thickness_short_inputs (x y : list float)
    (thickness d0 x0 x1 y0 y1 : float) :
  add_thickness x y thickness (Some [d0]) = Raise UnboundLocalError
  /\ add_thickness [x0; x1] [y0; y1] thickness None = Raise UnboundLocalError
  /\ add_thickness x y thickness (Some []) = Ok ([], [])
  /\ ((length x <= 1)%nat -> (length y <= 1)%nat ->
      add_thickness x y thickness None = Ok ([], [])).
Proof.
  do 3 (split; [reflexivity |]). intros Hx Hy.
  destruct x as [| a [| b x]]; destruct y as [| a' [| b' y]];
    cbn [length] in *; try lia; reflexivity.
Qed.

Lemma index_cases {A} (l : list A) (i : nat) :
  (exists a, index l i = Ok a /\ (i < length l)%nat)
  \/ (index l i = Raise IndexError /\ (length l <= i)%nat).
Proof.
  unfold index. destruct (nth_error l i) as [a |] eqn:Hnth.
  - left. exists a. split; [reflexivity |].
    apply nth_error_Some. congruence.
  - right. split; [reflexivity |]. apply nth_error_None. exact Hnth.
Qed.

(** An iteration either raises [IndexError] or goes through, with
    [convex] assigned and the sample within both lists. *)
Lemma body_outcome (x y : list float) (thickness : float)
    (dy_dx : list float) (k : nat) (st : locals) :
  (k < length dy_dx)%nat ->
  ((k + 1 = length dy_dx)%nat -> convex st <> None) ->
  body x y thickness dy_dx k st = Raise IndexError
  \/ exists st' : locals,
       body x y thickness dy_dx k st = Ok st'
       /\ convex st' <> None /\ (k < length x)%nat /\ (k < length y)%nat.
Proof.
  intros Hk Hc. unfold body.
  rewrite (index_ok dy_dx k NaN Hk). cbn [rbind].
  destruct (index_cases x k) as [(xi & Hxi & Hxk) | [Hxi _]];
    destruct (index_cases y k) as [(yi & Hyi & Hyk) | [Hyi _]];
    destruct (index_cases x (k + 1)) as [(xi1 & Hxi1 & _) | [Hxi1 _]];
    rewrite ?Hxi, ?Hyi, ?Hxi1;
    destruct (Nat.eqb_spec (k + 1) (length dy_dx)) as [Hlast | Hnot];
    cbn [negb rbind];
    try (destruct (convex st) as [c |]; [| exfalso; exact (Hc Hlast eq_refl)]);
    try destruct (fltb xi xi1);
    cbn [rbind]; rewrite ?Hxi, ?Hyi; cbn [rbind];
    try (left; reflexivity);
    right; destruct (outer_point _ _ _ _ _);
    (eexists; split; [reflexivity |]; cbn [convex];
     split; [discriminate | split; assumption]).
Qed.

Lemma loop_index_error (x y : list float) (thickness : float)
    (dy_dx : list float) (m : nat) :
  forall (k : nat) (st : locals),
    (k + m = length dy_dx)%nat ->
    (2 <= length dy_dx)%nat ->
    ((1 <= k)%nat -> convex st <> None) ->
    (k <= length x)%nat -> (k <= length y)%nat ->
    (length x < length dy_dx)%nat \/ (length y < length dy_dx)%nat ->
    for_range (seq k m) (body x y thickness dy_dx) st = Raise IndexError.
Proof.
  induction m as [| m IH]; intros k st Hkm Hn Hc Hx Hy Hshort.
  - lia.
  - cbn [seq for_range].
    assert (Hk : (k < length dy_dx)%nat) by lia.
    assert (Hlast : (k + 1 = length dy_dx)%nat -> convex st <> None)
      by (intros Hl; apply Hc; lia).
    destruct (body_outcome x y thickness dy_dx k st Hk Hlast)
      as [Hraise | (st' & Hok & Hc' & Hxk & Hyk)].
    + rewrite Hraise. reflexivity.
    + rewrite Hok. cbn [rbind]. apply IH; try lia; auto.
Qed.

(** X26.  With at least two slopes given, the call returns exactly when
    both sample lists have at least as many entries as the slope list,
    and then with one output sample per slope; a shorter [x] or [y] makes
    it raise [IndexError]. *)
Theorem add_thickness_needs_a_sample_per_slope (x y : list float)
    (thickness : float) (d : list float) :
  (2 <= length d)%nat ->
  ((length d <= length x)%nat /\ (length d <= length y)%nat ->
   exists xo yo : list float,
     add_thickness x y thickness (Some d) = Ok (xo, yo)
     /\ length xo = length d /\ length yo = length d)
  /\ ((length x < length d)%nat \/ (length y < length d)%nat ->
      add_thickness x y thickness (Some d) = Raise IndexError).
Proof.
  intros Hn. split.
  - intros [Hx Hy]. rewrite (add_thickness_samples x y thickness d Hn Hx Hy).
    do 2 eexists. split; [reflexivity |].
    rewrite !length_map, !length_seq. split; reflexivity.
  - intros Hshort. unfold add_thickness. cbn [rbind].
    rewrite (loop_index_error x y thickness d (length d) 0); try lia.
    reflexivity.
Qed.

(** X26 with three slopes: three samples are enough, two are not. *)
Lemma add_thickness_needs_a_sample_per_slope_witness :
  (exists xo yo : list float,
     add_thickness [Fin 0; Fin 1; Fin 2] [Fin 0; Fin 0; Fin 0] (Fin 1)
       (Some [Fin 0; Fin 0; Fin 0]) = Ok (xo, yo)
     /\ length xo = 3%nat /\ length yo = 3%nat)
  /\ add_thickness [Fin 0; Fin 1] [Fin 0; Fin 0; Fin 0] (Fin 1)
       (Some [Fin 0; Fin 0; Fin 0]) = Raise IndexError.
Proof.
  split.
  - apply (add_thickness_needs_a_sample_per_slope
             [Fin 0; Fin 1; Fin 2] [Fin 0; Fin 0; Fin 0] (Fin 1)
             [Fin 0; Fin 0; Fin 0]); cbn; lia.
  - apply (add_thickness_needs_a_sample_per_slope
             [Fin 0; Fin 1] [Fin 0; Fin 0; Fin 0] (Fin 1)
             [Fin 0; Fin 0; Fin 0]); cbn; lia.
Defined.

(** X27.  Derived slopes and lists of different lengths: unless one of
    the lists has exactly two entries (its one difference is then
    broadcast), or both have at most one, the division of the differences
    raises NumPy's [ValueError]. *)
Theorem add_thickness_length_mismatch (x y : list float) (thickness : float) :
  (length x - 1 <> length y - 1)%nat ->
  length x <> 2%nat -> length y <> 2%nat ->
  add_thickness x y thickness None = Raise ValueError_broadcast.
Proof.
  intros Hne Hx Hy. unfold add_thickness, np_divide.
  pose proof (np_diff_length x) as Lx. pose proof (np_diff_length y) as Ly.
  destruct (Nat.eqb_spec (length (np_diff y)) (length (np_diff x))) as [Heq | _];
    [lia |].
  destruct (np_diff y) as [| p [| p' dy]]; destruct (np_diff x) as [| q [| q' dx]];
    cbn [length] in *; try lia; reflexivity.
Qed.

Lemma add_thickness_length_mismatch_witness :
  add_thickness [Fin 0; Fin 1; Fin 2] [Fin 0; Fin 0; Fin 0; Fin 0] (Fin 1) None
  = Raise ValueError_broadcast.
Proof.
  apply (add_thickness_length_mismatch
           [Fin 0; Fin 1; Fin 2] [Fin 0; Fin 0; Fin 0; Fin 0] (Fin 1));
    cbn; lia.
Defined.

(** X28.  For finite data and a finite slope [d] the outer point is the
    sample moved by a vector that is perpendicular to the tangent
    [(1, d)] and of length [|thickness|]; it points to the side of
    increasing [y] for a positive thickness, to the other side when
    [convex]. *)
Theorem outer_point_along_unit_normal (xi yi thickness d : R) (c : bool) :
  exists X Y : R,
    outer_point (Fin xi) (Fin yi) (Fin thickness) (normal_of_slope (Fin d)) c
    = (Fin X, Fin Y)
    /\ (X - xi) * 1 + (Y - yi) * d = 0
    /\ distance_between_two_points (xi, yi) (X, Y) = Rabs thickness
    /\ 0 <= (Y - yi) * thickness * (if c then -1 else 1).
Proof.
  rewrite outer_point_finite. cbv zeta.
  assert (Hpos : 0 < sqrt (d * d + 1)) by (apply sqrt_lt_R0; nra).
  assert (Hsq : sqrt (d * d + 1) * sqrt (d * d + 1) = d * d + 1)
    by (apply sqrt_sqrt; nra).
  set (q := sqrt (d * d + 1)) in *.
  set (s := if c then -1 else 1).
  assert (Hs : s * s = 1) by (unfold s; destruct c; ring).
  do 2 eexists. split; [reflexivity |]. split; [| split].
  - field. lra.
  - unfold distance_between_two_points, norm2. cbn [fst snd].
    rewrite <- sqrt_Rsqr_abs. unfold Rsqr. f_equal.
    transitivity (thickness * thickness * (s * s) * (d * d + 1) / (q * q));
      [field; lra |].
    rewrite Hs, Hsq. field. nra.
  - replace ((yi + thickness * (1 * s / q) - yi) * thickness * s)
      with (thickness * thickness * (s * s) / q) by (field; lra).
    rewrite Hs. apply Rmult_le_pos; [nra | left; apply Rinv_0_lt_compat; exact Hpos].
Qed.

(** X29.  For a slope of [-inf] the sample is moved horizontally by
    [thickness], for [+inf] by [-thickness]; the other way round when
    [convex]. *)
Theorem outer_point_vertical_tangent (xi yi thickness : R) (c : bool) :
  let s := if c then -1 else 1 in
  outer_point (Fin xi) (Fin yi) (Fin thickness) (normal_of_slope NInf) c
  = (Fin (xi + s * thickness), Fin yi)
  /\ outer_point (Fin xi) (Fin yi) (Fin thickness) (normal_of_slope PInf) c
     = (Fin (xi - s * thickness), Fin yi).
Proof.
  assert (Hone : forall a b : R, a * a + b * b = 1 -> sqrt (a * a + b * b) = 1)
    by (intros a b ->; apply sqrt_1).
  unfold normal_of_slope, outer_point. cbn [feqb].
  destruct c; cbn [fmul fsquare fadd fsqrt];
    repeat match goal with
      | |- context [Rlt_dec ?a 0] =>
          destruct (Rlt_dec a 0) as [Hneg | _]; [nra |]
      end;
    rewrite !Hone by ring; unfold fdiv;
    destruct (Req_dec_T 1 0) as [H10 | _]; try lra;
    cbn [fmul fadd]; split; f_equal; f_equal; field.
Qed.

Lemma nth_np_diff (l : list float) :
  forall i : nat,
    (i + 1 < length l)%nat ->
    nth i (np_diff l) NaN = fsub (nth (i + 1) l NaN) (nth i l NaN).
Proof.
  induction l as [| a [| b l] IH]; intros i Hi; cbn [length] in Hi; try lia.
  change (np_diff (a :: b :: l)) with (fsub b a :: np_diff (b :: l)).
  destruct i as [| i].
  - reflexivity.
  - cbn [nth Nat.add]. apply IH. cbn [length]. lia.
Qed.

Lemma nth_np_divide (a b d : list float) (i : nat) :
  np_divide a b = Ok d ->
  length a = length b ->
  (i < length a)%nat ->
  nth i d NaN = fdiv (nth i a NaN) (nth i b NaN).
Proof.
  intros Hd Hlen Hi. unfold np_divide in Hd.
  rewrite (proj2 (Nat.eqb_eq _ _) Hlen) in Hd. inversion Hd; subst d.
  change NaN with ((fun pq => fdiv (fst pq) (snd pq)) (NaN, NaN)) at 1.
  rewrite map_nth, combine_nth by exact Hlen. reflexivity.
Qed.

(** X30.  A horizontal line.  For at least three samples of strictly
    increasing abscissa and one ordinate [y0], with derived slopes, the
    outer curve is the line moved up by [thickness]: every sample but
    the last one [(x_i, y0)] gives [(x_i, y0 + thickness)]. *)
Theorem add_thickness_horizontal_line (xs : list R) (y0 thickness : R) :
  (3 <= length xs)%nat ->
  (forall i, (i + 1 < length xs)%nat -> nth i xs 0 < nth (i + 1) xs 0) ->
  add_thickness (map Fin xs) (map (fun _ => Fin y0) xs) (Fin thickness) None
  = Ok (map Fin (removelast xs),
        map (fun _ => Fin (y0 + thickness)) (removelast xs)).
Proof.
  intros Hn Hinc.
  set (x := map Fin xs). set (y := map (fun _ : R => Fin y0) xs).
  assert (Lx : length x = length xs) by apply length_map.
  assert (Ly : length y = length xs) by apply length_map.
  assert (Nx : forall i, (i < length xs)%nat -> nth i x NaN = Fin (nth i xs 0)).
  { intros i Hi. unfold x.
    rewrite (nth_indep _ NaN (Fin 0)) by (rewrite length_map; lia).
    apply (map_nth Fin). }
  assert (Ny : forall i, (i < length xs)%nat -> nth i y NaN = Fin y0).
  { intros i Hi. unfold y.
    rewrite (nth_indep _ NaN ((fun _ => Fin y0) 0)) by (rewrite length_map; lia).
    exact (map_nth (fun _ : R => Fin y0) xs 0 i). }
  destruct (add_thickness_lengths x y (Fin thickness) None)
    as (d & xo & yo & Hrun & Hdl & Hnone & _ & Hxo & Hyo & _ & _);
    [lia | lia | discriminate |].
  specialize (Hnone eq_refl). rewrite Hrun, Hxo, Hyo. clear Hrun Hxo Hyo.
  assert (Hd : forall i, (i + 1 < length xs)%nat -> nth i d NaN = Fin 0).
  { intros i Hi.
    rewrite (nth_np_divide _ _ d i Hnone)
      by (rewrite ?np_diff_length; lia).
    rewrite !nth_np_diff by lia.
    rewrite !Nx, !Ny by lia. pose proof (Hinc i Hi) as Hlt.
    cbn [fsub fneg fadd fdiv].
    destruct (Req_dec_T (nth (i + 1) xs 0 + - nth i xs 0) 0) as [Hz | _]; [lra |].
    f_equal. field. lra. }
  assert (Hconv : forall j, (j + 1 < length xs)%nat -> convex_at x j = false).
  { intros j Hj. unfold convex_at. rewrite !Nx by lia. cbn [fltb].
    destruct (Rltb_spec (nth j xs 0) (nth (j + 1) xs 0)) as [_ | Hno];
      [reflexivity | exfalso; apply Hno, Hinc, Hj]. }
  assert (Hsample : forall i, (i + 1 < length xs)%nat ->
            sample x y (Fin thickness) d i
            = (Fin (nth i xs 0), Fin (y0 + thickness))).
  { intros i Hi. unfold sample.
    rewrite Nx, Ny, Hd by lia.
    rewrite Hconv.
    - rewrite outer_point_finite. cbv zeta.
      replace (0 * 0 + 1) with 1 by ring. rewrite sqrt_1.
      f_equal; f_equal; field.
    - unfold flag_index. rewrite Hdl, Lx.
      destruct (Nat.eqb_spec (i + 1) (length xs - 1)); lia. }
  rewrite Lx, removelast_firstn_len.
  replace (Nat.pred (length xs)) with (length xs - 1)%nat by lia.
  f_equal; f_equal.
  - apply (nth_ext _ _ NaN NaN).
    + rewrite !length_map, length_seq, length_firstn. lia.
    + intros i Hi. rewrite length_map, length_seq in Hi.
      rewrite nth_map_seq, Hsample by lia. cbn [fst].
      rewrite (nth_indep _ NaN (Fin 0))
        by (rewrite length_map, length_firstn; lia).
      rewrite (map_nth Fin), nth_firstn.
      destruct (Nat.ltb_spec i (length xs - 1)); [reflexivity | lia].
  - apply (nth_ext _ _ NaN NaN).
    + rewrite !length_map, length_seq, length_firstn. lia.
    + intros i Hi. rewrite length_map, length_seq in Hi.
      rewrite nth_map_seq, Hsample by lia. cbn [snd].
      rewrite (nth_indep _ NaN ((fun _ => Fin (y0 + thickness)) 0))
        by (rewrite length_map, length_firstn; lia).
      exact (eq_sym (map_nth (fun _ : R => Fin (y0 + thickness))
                       (firstn (length xs - 1) xs) 0 i)).
Qed.

(** X30 on the abscissae 0, 1, 2 at height 5 with thickness 2. *)
Lemma add_thickness_horizontal_line_witness :
  add_thickness (map Fin [0; 1; 2]) (map (fun _ => Fin 5) [0; 1; 2]) (Fin 2) None
  = Ok (map Fin (removelast [0; 1; 2]),
        map (fun _ => Fin (5 + 2)) (removelast [0; 1; 2])).
Proof.
  apply (add_thickness_horizontal_line [0; 1; 2] 5 2).
  - cbn. lia.
  - intros [| [| i]] Hi; cbn in *; try lia; lra.
Defined.

End AddThicknessMore.
